(** * Pinterest OAuth 2.0 token lifecycle (src/auth.ts, src/types.ts)

    A shallow embedding of the authentication module: the credential store
    ([loadTokens], [saveTokens]), the refresh path ([refreshAccessToken],
    [getValidAccessToken]) and the browser handshake ([startOAuthFlow]).

    The module is effectful TypeScript.  Its functions are written here in a
    state-and-exception monad over an explicit [world]: the process
    environment, the file system, the clock, the token endpoint and the log
    of observable events.  Values that cross an untyped boundary
    ([JSON.parse], [response.json()]) are JavaScript values ([value]), so
    that a missing field, [null], an empty string or [0] behave as they do
    at run time. *)

From Stdlib Require Import ZArith Lia.
From stdpp Require Import base option list strings gmap fin_maps.

Set Warnings "-register-all".

Local Open Scope Z_scope.

(** ** JavaScript values *)

Module Js.

(** Numbers.  The module only manipulates millisecond and second counts;
    they are exact integers here, and [NaN] is what arithmetic on a missing
    field produces. *)
Inductive num : Type :=
| Fin (z : Z)
| NaN.

Inductive value : Type :=
| VUndefined
| VNull
| VBool (b : bool)
| VNum (n : num)
| VStr (s : string)
| VObj (props : list (string * value))
| VArr (items : list value).

(** The text of a file or of a response body is kept up to what
    [JSON.parse] makes of it: either a text it rejects, or a text it
    accepts, represented by the value it yields. *)
Inductive text : Type :=
| NotJson (raw : string)
| Json (v : value).

(** What the runtime raises or the module throws. *)
Inductive exn : Type :=
| Error (msg : string)
  (** [new Error(msg)] with a fixed message *)
| ErrorStatus (msg : string) (status : Z) (body : text)
  (** [new Error(`${msg} (${status}): ${body}`)] *)
| ErrorDetail (msg : string) (detail : string)
  (** [new Error(`${msg}: ${detail}`)] *)
| Native (name : string)
  (** raised by the runtime: TypeError, SyntaxError, a system error code *)
.

Inductive outcome (A : Type) : Type :=
| Ret (a : A)
| Throw (e : exn).
Arguments Ret {A} a.
Arguments Throw {A} e.

(** ToBoolean: the test behind [!x], [x ? a : b] and [if (x)]. *)
Definition truthy (v : value) : bool :=
  match v with
  | VUndefined | VNull => false
  | VBool b => b
  | VNum (Fin z) => negb (z =? 0)
  | VNum NaN => false
  | VStr s => negb (String.eqb s "")
  | VObj _ | VArr _ => true
  end.

(** [a ?? b] *)
Definition nullish (a b : value) : value :=
  match a with
  | VUndefined | VNull => b
  | _ => a
  end.

(** Own property lookup; a name that is not there reads as [undefined]. *)
Fixpoint assoc (k : string) (ps : list (string * value)) : value :=
  match ps with
  | [] => VUndefined
  | (k', v) :: rest => if String.eqb k k' then v else assoc k rest
  end.

(** [v.k] for the field names of this module (none of them is a property
    of a primitive wrapper or of [Array.prototype]). *)
Definition get (v : value) (k : string) : outcome value :=
  match v with
  | VUndefined | VNull => Throw (Native "TypeError")
  | VObj ps => Ret (assoc k ps)
  | VBool _ | VNum _ | VStr _ | VArr _ => Ret VUndefined
  end.

(** [v?.k] *)
Definition get_opt (v : value) (k : string) : value :=
  match v with
  | VObj ps => assoc k ps
  | _ => VUndefined
  end.

(** ToNumber.  On strings, objects and arrays it goes through the
    runtime's StringToNumber and ToPrimitive, which are not modelled: that
    part is the parameter [coerce]. *)
Definition to_number (coerce : value -> num) (v : value) : num :=
  match v with
  | VUndefined => NaN
  | VNull => Fin 0
  | VBool b => Fin (if b then 1 else 0)
  | VNum n => n
  | VStr _ | VObj _ | VArr _ => coerce v
  end.

Definition num_add (a b : num) : num :=
  match a, b with
  | Fin x, Fin y => Fin (x + y)
  | _, _ => NaN
  end.

Definition num_mul (a b : num) : num :=
  match a, b with
  | Fin x, Fin y => Fin (x * y)
  | _, _ => NaN
  end.

(** [a < b] on numbers: false as soon as one side is [NaN]. *)
Definition num_lt (a b : num) : bool :=
  match a, b with
  | Fin x, Fin y => x <? y
  | _, _ => false
  end.

(** [v * n], [v < n] and [v > n] with a number on the right, the only
    shapes in which the module applies these operators. *)
Definition times (coerce : value -> num) (v : value) (n : num) : num :=
  num_mul (to_number coerce v) n.

Definition less (coerce : value -> num) (v : value) (n : num) : bool :=
  num_lt (to_number coerce v) n.

Definition greater (coerce : value -> num) (v : value) (n : num) : bool :=
  num_lt n (to_number coerce v).

(** *** JSON *)

(** The value [JSON.parse (JSON.stringify v)] yields: a property whose
    value is [undefined] is left out, an array slot holding [undefined]
    becomes [null], and so does a number that is not finite.  [None] is
    [JSON.stringify] returning [undefined]. *)
Fixpoint json_of (v : value) : option value :=
  match v with
  | VUndefined => None
  | VNull => Some VNull
  | VBool b => Some (VBool b)
  | VNum (Fin z) => Some (VNum (Fin z))
  | VNum NaN => Some VNull
  | VStr s => Some (VStr s)
  | VObj ps =>
      Some (VObj ((fix props (l : list (string * value)) : list (string * value) :=
                     match l with
                     | [] => []
                     | (k, x) :: rest =>
                         match json_of x with
                         | Some y => (k, y) :: props rest
                         | None => props rest
                         end
                     end) ps))
  | VArr xs =>
      Some (VArr ((fix items (l : list value) : list value :=
                     match l with
                     | [] => []
                     | x :: rest =>
                         match json_of x with
                         | Some y => y :: items rest
                         | None => VNull :: items rest
                         end
                     end) xs))
  end.

Definition JSON_stringify (v : value) : option text := Json <$> json_of v.

Definition JSON_parse (t : text) : outcome value :=
  match t with
  | NotJson _ => Throw (Native "SyntaxError")
  | Json v => Ret v
  end.

End Js.
Export Js.

(** ** The world around the module *)

Module Platform.

(** A path is the list of its components below the root. *)
Definition path : Type := list string.

(** A node of the file system with its permission bits. *)
Inductive node : Type :=
| Dir (mode : Z)
| File (mode : Z) (data : text).

(** A URL: what comes before the query, and the query parameters in order. *)
Record url : Type := Url {
  url_base : string;
  url_query : list (string * string)
}.

(** The header [Authorization: Basic <base64 of credentials>]. *)
Inductive authorization : Type :=
| Basic (credentials : string).

(** A POST to the token endpoint.  The body is the form that
    [URLSearchParams] encodes, before encoding. *)
Record request : Type := Request {
  req_url : string;
  req_method : string;
  req_authorization : authorization;
  req_content_type : string;
  req_body : list (string * value)
}.

Record response : Type := Response {
  res_status : Z;
  res_body : text
}.

(** What a [fetch] comes back with. *)
Inductive fetched : Type :=
| NetworkError
| Responded (r : response).

(** A request reaching the callback listener, as [new URL(req.url)] reads
    it: the path and the two query parameters ([None] when absent). *)
Record callback : Type := Callback {
  cb_pathname : string;
  cb_code : option string;
  cb_state : option string
}.

Inductive log_arg : Type :=
| ArgPath (p : path)
| ArgUrl (u : url).

(** What the module does to the outside, in the order it does it. *)
Inductive event : Type :=
| EvLog (msg : string) (args : list log_arg)
| EvFetch (req : request)
| EvMkdir (p : path) (mode : Z)
| EvWriteFile (p : path) (data : text)
| EvSetTimeout (ms : Z)
| EvClearTimeout
| EvListen (port : Z) (bound : bool)
| EvClose (port : Z)
| EvRespond (status : Z)
| EvOpen (u : url).

Record world : Type := World {
  env : gmap string string;        (** [process.env] *)
  homedir : path;                  (** [os.homedir()] *)
  umask : Z;                       (** the process file-mode creation mask *)
  fs : gmap path node;
  clock : nat -> Z;                (** the successive readings of [Date.now()] *)
  clock_reads : nat;
  coerce : value -> num;           (** the runtime's ToNumber on non-primitives and strings *)
  uuids : nat -> string;           (** the successive results of [randomUUID()] *)
  uuid_reads : nat;
  endpoint : list fetched;         (** what the coming [fetch] calls come back with *)
  ports : gset Z;                  (** the local ports that are bound *)
  browser : bool;                  (** whether [open] manages to launch a browser *)
  inbox : list callback;           (** the requests that reach the listener before its timeout *)
  listening : bool;                (** whether the callback server holds its port *)
  trace : list event
}.

Definition set_fs (m : gmap path node) (w : world) : world :=
  World (env w) (homedir w) (umask w) m (clock w) (clock_reads w) (coerce w)
        (uuids w) (uuid_reads w) (endpoint w) (ports w) (browser w) (inbox w)
        (listening w) (trace w).

Definition set_clock_reads (n : nat) (w : world) : world :=
  World (env w) (homedir w) (umask w) (fs w) (clock w) n (coerce w)
        (uuids w) (uuid_reads w) (endpoint w) (ports w) (browser w) (inbox w)
        (listening w) (trace w).

Definition set_uuid_reads (n : nat) (w : world) : world :=
  World (env w) (homedir w) (umask w) (fs w) (clock w) (clock_reads w) (coerce w)
        (uuids w) n (endpoint w) (ports w) (browser w) (inbox w)
        (listening w) (trace w).

Definition set_endpoint (l : list fetched) (w : world) : world :=
  World (env w) (homedir w) (umask w) (fs w) (clock w) (clock_reads w) (coerce w)
        (uuids w) (uuid_reads w) l (ports w) (browser w) (inbox w)
        (listening w) (trace w).

Definition set_server (ps : gset Z) (b : bool) (w : world) : world :=
  World (env w) (homedir w) (umask w) (fs w) (clock w) (clock_reads w) (coerce w)
        (uuids w) (uuid_reads w) (endpoint w) ps (browser w) (inbox w)
        b (trace w).

Definition set_inbox (l : list callback) (w : world) : world :=
  World (env w) (homedir w) (umask w) (fs w) (clock w) (clock_reads w) (coerce w)
        (uuids w) (uuid_reads w) (endpoint w) (ports w) (browser w) l
        (listening w) (trace w).

Definition emit (e : event) (w : world) : world :=
  World (env w) (homedir w) (umask w) (fs w) (clock w) (clock_reads w) (coerce w)
        (uuids w) (uuid_reads w) (endpoint w) (ports w) (browser w) (inbox w)
        (listening w) (trace w ++ [e]).

(** *** Computations: a result or an exception, and the world after *)

Definition M (A : Type) : Type := world -> outcome A * world.

Definition ret {A : Type} (a : A) : M A := fun w => (Ret a, w).

Definition throw {A : Type} (e : exn) : M A := fun w => (Throw e, w).

Definition bind {A B : Type} (c : M A) (k : A -> M B) : M B :=
  fun w =>
    match c w with
    | (Ret a, w') => k a w'
    | (Throw e, w') => (Throw e, w')
    end.

(** [try { c } catch { h }] *)
Definition try_catch {A : Type} (c : M A) (h : exn -> M A) : M A :=
  fun w =>
    match c w with
    | (Ret a, w') => (Ret a, w')
    | (Throw e, w') => h e w'
    end.

Definition lift {A : Type} (o : outcome A) : M A := fun w => (o, w).

Definition tell (e : event) : M unit := fun w => (Ret tt, emit e w).

Declare Scope js_scope.
Delimit Scope js_scope with js.
Notation "'do' x <- c ; k" := (bind c (fun x => k))
  (at level 10, x name, c at level 100, k at level 200) : js_scope.
Notation "'step' c ; k" := (bind c (fun _ => k))
  (at level 10, c at level 100, k at level 200) : js_scope.
Local Open Scope js_scope.

(** [console.error] *)
Definition console_error (msg : string) (args : list log_arg) : M unit :=
  tell (EvLog msg args).

(** [process.env.NAME] *)
Definition process_env (name : string) : M (option string) :=
  fun w => (Ret (env w !! name), w).

(** The truth value of an environment lookup: set and not empty. *)
Definition is_set (o : option string) : bool :=
  match o with
  | Some s => negb (String.eqb s "")
  | None => false
  end.

Definition os_homedir : M path := fun w => (Ret (homedir w), w).

(** [path.join(dir, name)] on a normalised path and a plain name. *)
Definition path_join (dir : path) (name : string) : path := dir ++ [name].

Definition Date_now : M Z :=
  fun w => (Ret (clock w (clock_reads w)), set_clock_reads (S (clock_reads w)) w).

Definition randomUUID : M string :=
  fun w => (Ret (uuids w (uuid_reads w)), set_uuid_reads (S (uuid_reads w)) w).

(** [v * n], [v < n] and [v > n] as the runtime evaluates them. *)
Definition js_mul (v : value) (n : num) : M num :=
  fun w => (Ret (times (coerce w) v n), w).

Definition js_lt (v : value) (n : num) : M bool :=
  fun w => (Ret (less (coerce w) v n), w).

Definition js_gt (v : value) (n : num) : M bool :=
  fun w => (Ret (greater (coerce w) v n), w).

(** *** File system

    The process owns every node.  Permission bits are recorded on every
    node and enforced on files; directory permissions are not enforced. *)

(** [mode & ~umask] *)
Definition masked (mode mask : Z) : Z := Z.land mode (Z.lnot mask).

(** 0o400 and 0o200 *)
Definition owner_readable (mode : Z) : bool := Z.testbit mode 8.
Definition owner_writable (mode : Z) : bool := Z.testbit mode 7.

(** No bit of 0o077 is set. *)
Definition owner_only (mode : Z) : bool := Z.land mode 63 =? 0.

Definition is_dir (m : gmap path node) (p : path) : bool :=
  match p with
  | [] => true
  | _ => match m !! p with
         | Some (Dir _) => true
         | _ => false
         end
  end.

Definition parent (p : path) : path := take (length p - 1)%nat p.

(** [fs.existsSync(p)] *)
Definition existsSync (p : path) : M bool :=
  fun w => (Ret (match p with
                 | [] => true
                 | _ => bool_decide (is_Some (fs w !! p))
                 end), w).

(** [mkdir -p]: walk down [todo] below [above], creating what is missing. *)
Fixpoint mkdirs (above : path) (todo : list string) (mode : Z)
    (m : gmap path node) : outcome (gmap path node) * list event :=
  match todo with
  | [] => (Ret m, [])
  | name :: rest =>
      let here := above ++ [name] in
      match m !! here with
      | None =>
          let '(r, evs) := mkdirs here rest mode (<[here := Dir mode]> m) in
          (r, EvMkdir here mode :: evs)
      | Some (Dir _) => mkdirs here rest mode m
      | Some (File _ _) =>
          (Throw (Native (match rest with [] => "EEXIST" | _ => "ENOTDIR" end)), [])
      end
  end.

(** [fs.mkdirSync(p, { recursive: true })]: no mode is given, so the
    directories get 0o777 masked by the umask. *)
Definition mkdirSync_recursive (p : path) : M unit :=
  fun w =>
    match mkdirs [] p (masked 511 (umask w)) (fs w) with
    | (Ret m, evs) =>
        (Ret tt, set_fs m (fold_left (fun w' e => emit e w') evs w))
    | (Throw e, _) => (Throw e, w)
    end.

(** [fs.writeFileSync(p, data, { mode })]: the mode is used when the file
    is created; an existing file keeps the mode it has. *)
Definition writeFileSync (p : path) (data : option text) (mode : Z) : M unit :=
  fun w =>
    match data with
    | None => (Throw (Native "TypeError"), w)
    | Some d =>
        match fs w !! p with
        | Some (Dir _) => (Throw (Native "EISDIR"), w)
        | Some (File m _) =>
            if owner_writable m
            then (Ret tt, emit (EvWriteFile p d) (set_fs (<[p := File m d]> (fs w)) w))
            else (Throw (Native "EACCES"), w)
        | None =>
            if is_dir (fs w) (parent p)
            then (Ret tt, emit (EvWriteFile p d)
                            (set_fs (<[p := File (masked mode (umask w)) d]> (fs w)) w))
            else (Throw (Native "ENOENT"), w)
        end
    end.

(** [fs.readFileSync(p, "utf-8")] *)
Definition readFileSync (p : path) : M text :=
  fun w =>
    match fs w !! p with
    | Some (File m d) =>
        if owner_readable m then (Ret d, w) else (Throw (Native "EACCES"), w)
    | Some (Dir _) => (Throw (Native "EISDIR"), w)
    | None => (Throw (Native "ENOENT"), w)
    end.

(** *** Network *)

(** [fetch(url, init)]: the call is recorded, and the next outcome of the
    endpoint is consumed; when none is left the network is down. *)
Definition fetch (req : request) : M response :=
  fun w =>
    let w' := emit (EvFetch req) w in
    match endpoint w with
    | [] => (Throw (Native "TypeError"), w')
    | NetworkError :: rest => (Throw (Native "TypeError"), set_endpoint rest w')
    | Responded r :: rest => (Ret r, set_endpoint rest w')
    end.

(** *** The callback server and the browser *)

(** [server.listen(port, onListening)] without a host: the runtime binds
    the port before the call returns.  A port that is taken leaves the
    server unbound; its ['error'] event is delivered on a later turn of the
    event loop, like the ['listening'] event of a bound server. *)
Definition server_listen (port : Z) : M unit :=
  fun w =>
    if bool_decide (port ∈ ports w)
    then (Ret tt, emit (EvListen port false) w)
    else (Ret tt, emit (EvListen port true) (set_server ({[port]} ∪ ports w) true w)).

(** [server.close()], the open sockets having been destroyed. *)
Definition server_close (port : Z) : M unit :=
  fun w => (Ret tt, emit (EvClose port) (set_server (ports w ∖ {[port]}) false w)).

(** How the launch of the browser ends. *)
Definition launched : M unit :=
  fun w => if browser w then (Ret tt, w) else (Throw (Native "spawn"), w).

(** [await open(u)]: the browser is launched at [u]; while the caller is
    suspended the event loop runs [meanwhile]; then the launch is reported. *)
Definition open_browser (u : url) (meanwhile : M unit) : M unit :=
  step tell (EvOpen u);
  step meanwhile;
  launched.

(** Takes the next request out of the inbox. *)
Definition next_request : M (option callback) :=
  fun w =>
    match inbox w with
    | [] => (Ret None, w)
    | r :: rest => (Ret (Some r), set_inbox rest w)
    end.

(** [response.ok] *)
Definition res_ok (r : response) : bool :=
  (200 <=? res_status r) && (res_status r <=? 299).

(** [response.text()] and [response.json()] *)
Definition res_text (r : response) : M text := ret (res_body r).
Definition res_json (r : response) : M value := lift (JSON_parse (res_body r)).

End Platform.
Export Platform.

(** ** src/types.ts *)

Module Types.

(** [interface StoredTokens] *)
Record StoredTokens : Type := mkStoredTokens {
  access_token : string;
  refresh_token : string;
  expires_at : Z;               (** Unix ms timestamp *)
  refresh_token_expires_at : Z; (** Unix ms timestamp *)
  scope : string
}.

(** The object literal with the five properties of a credential record. *)
Definition record (a r e re s : value) : value :=
  VObj [("access_token", a); ("refresh_token", r); ("expires_at", e);
        ("refresh_token_expires_at", re); ("scope", s)].

(** A typed record as the object the module handles. *)
Definition tokens_value (t : StoredTokens) : value :=
  record (VStr (access_token t)) (VStr (refresh_token t))
         (VNum (Fin (expires_at t))) (VNum (Fin (refresh_token_expires_at t)))
         (VStr (scope t)).

End Types.
Export Types.

(** ** src/auth.ts *)

Module Auth.

Local Open Scope js_scope.

(** *** Configuration *)

Definition OAUTH_CALLBACK_PORT : Z := 3333.
Definition OAUTH_REDIRECT_URI : string := "http://localhost:3333/callback".
Definition OAUTH_SCOPES : string :=
  "boards:read,boards:write,pins:read,pins:write,user_accounts:read".
Definition PINTEREST_AUTH_URL : string := "https://www.pinterest.com/oauth/".
Definition PINTEREST_TOKEN_URL : string := "https://api.pinterest.com/v5/oauth/token".
Definition TOKEN_EXPIRY_BUFFER_MS : Z := 60000.
Definition OAUTH_TIMEOUT_MS : Z := 120000.

(** *** Environment *)

Definition getAppId : M string :=
  do id <- process_env "PINTEREST_APP_ID";
  if negb (is_set id)
  then throw (Error "PINTEREST_APP_ID environment variable is not set.")
  else ret (default "" id).

Definition getAppSecret : M string :=
  do secret <- process_env "PINTEREST_APP_SECRET";
  if negb (is_set secret)
  then throw (Error "PINTEREST_APP_SECRET environment variable is not set.")
  else ret (default "" secret).

Definition getBasicAuthHeader : M authorization :=
  do id <- getAppId;
  do secret <- getAppSecret;
  ret (Basic (id ++ ":" ++ secret)).

(** *** Token storage *)

Definition getTokenDir : M path :=
  do home <- os_homedir;
  ret (path_join home ".mcp-credentials").

Definition getTokenPath : M path :=
  do dir <- getTokenDir;
  ret (path_join dir "pinterest-tokens.json").

Definition loadTokens : M value :=
  do envToken <- process_env "PINTEREST_ACCESS_TOKEN";
  if is_set envToken then
    do now <- Date_now;
    ret (record (VStr (default "" envToken)) (VStr "")
                (VNum (Fin (now + 24 * 60 * 60 * 1000))) (VNum (Fin 0))
                (VStr "pins:read,boards:read,user_accounts:read,ads:read,catalogs:read"))
  else
    try_catch
      (do p <- getTokenPath;
       do data <- readFileSync p;
       do parsed <- lift (JSON_parse data);
       do token <- lift (get parsed "access_token");
       if negb (truthy token) then ret VNull else ret parsed)
      (fun _ => ret VNull).

Definition saveTokens (tokens : value) : M unit :=
  do dir <- getTokenDir;
  do there <- existsSync dir;
  step (if negb there then mkdirSync_recursive dir else ret tt);
  do p <- getTokenPath;
  step writeFileSync p (JSON_stringify tokens) 384 (* 0o600 *);
  do shown <- getTokenPath;
  console_error "[auth] Tokens saved to" [ArgPath shown].

(** *** OAuth flow *)

(** [cleanup()] inside [waitForAuthorizationCode] *)
Definition cleanup : M unit :=
  step tell EvClearTimeout;
  server_close OAUTH_CALLBACK_PORT.

(** The request handler given to [http.createServer].  [None]: the
    promise stays pending; [Some r]: it is settled with [r]. *)
Definition on_request (state : string) (req : callback) : M (option (outcome string)) :=
  if negb (String.eqb (cb_pathname req) "/callback") then
    step tell (EvRespond 404);
    ret None
  else if negb (bool_decide (cb_state req = Some state)) then
    step tell (EvRespond 400);
    step cleanup;
    ret (Some (Throw (Error "OAuth state mismatch.")))
  else if negb (is_set (cb_code req)) then
    step tell (EvRespond 400);
    step cleanup;
    ret (Some (Throw (Error "No authorization code in callback.")))
  else
    step tell (EvRespond 200);
    step cleanup;
    ret (Some (Ret (default "" (cb_code req)))).

(** The body of the promise that [waitForAuthorizationCode] returns, up to
    the end of the executor: the server is created, the timer is armed and
    [server.listen] is called. *)
Definition waitForAuthorizationCode (state : string) : M unit :=
  step tell (EvSetTimeout OAUTH_TIMEOUT_MS);
  server_listen OAUTH_CALLBACK_PORT.

(** What the event loop delivers right after the executor: the
    ['listening'] callback of a bound server, or the ['error'] handler
    (its [clearTimeout]; its [reject] is observed when the promise is
    awaited). *)
Definition after_listen : M unit :=
  fun w =>
    if listening w
    then console_error "[auth] OAuth callback server listening on port 3333" [] w
    else tell EvClearTimeout w.

(** The requests are handled in the order they arrive, until one settles
    the promise; when none does, the timer fires. *)
Fixpoint serve (state : string) (reqs : list callback) : M string :=
  match reqs with
  | [] =>
      step cleanup;
      throw (Error "OAuth timeout: no callback received within 2 minutes.")
  | req :: rest =>
      step next_request;
      do settled <- on_request state req;
      match settled with
      | None => serve state rest
      | Some (Ret code) => ret code
      | Some (Throw e) => throw e
      end
  end.

(** [await codePromise]: the rejection of a listener that could not bind
    is observed here; otherwise the requests are served. *)
Definition await_code (state : string) : M string :=
  fun w =>
    if listening w
    then serve state (inbox w) w
    else throw (ErrorDetail "Failed to start OAuth callback server"
                       "listen EADDRINUSE: address already in use :::3333") w.

Definition exchangeCodeForTokens (code : string) : M value :=
  let body := [("grant_type", VStr "authorization_code"); ("code", VStr code);
               ("redirect_uri", VStr OAUTH_REDIRECT_URI)] in
  do auth <- getBasicAuthHeader;
  do response <- fetch (Request PINTEREST_TOKEN_URL "POST" auth
                                "application/x-www-form-urlencoded" body);
  if negb (res_ok response) then
    do errorText <- res_text response;
    throw (ErrorStatus "Token exchange failed" (res_status response) errorText)
  else
    do data <- res_json response;
    do access <- lift (get data "access_token");
    do refresh <- lift (get data "refresh_token");
    do now <- Date_now;
    do expires_in <- lift (get data "expires_in");
    do lifetime <- js_mul expires_in (Fin 1000);
    do refresh_at <- lift (get data "refresh_token_expires_at");
    do refresh_expiry <- js_mul refresh_at (Fin 1000);
    do granted <- lift (get data "scope");
    ret (record access refresh (VNum (num_add (Fin now) lifetime))
                (VNum refresh_expiry) granted).

Definition startOAuthFlow : M string :=
  do state <- randomUUID;
  do consumer <- getAppId;
  let authUrl :=
    Url PINTEREST_AUTH_URL
        [("consumer_id", consumer); ("redirect_uri", OAUTH_REDIRECT_URI);
         ("response_type", "code"); ("refreshable", "true");
         ("scope", OAUTH_SCOPES); ("state", state)] in
  step console_error "[auth] Starting OAuth flow..." [];
  step console_error "[auth] Authorization URL:" [ArgUrl authUrl];
  step waitForAuthorizationCode state;
  step open_browser authUrl after_listen;
  step console_error "[auth] Browser opened. Waiting for authorization..." [];
  do code <- await_code state;
  step console_error "[auth] Authorization code received. Exchanging for tokens..." [];
  do tokens <- exchangeCodeForTokens code;
  step saveTokens tokens;
  step console_error "[auth] OAuth flow completed successfully." [];
  ret "Successfully authenticated with Pinterest!".

(** *** Token refresh *)

Definition refreshAccessToken : M value :=
  do tokens <- loadTokens;
  if negb (truthy (get_opt tokens "refresh_token")) then
    throw (Error "No refresh token available. Please re-authenticate using pinterest_auth.")
  else
    step console_error "[auth] Refreshing access token..." [];
    do sent <- lift (get tokens "refresh_token");
    let body := [("grant_type", VStr "refresh_token"); ("refresh_token", sent)] in
    do auth <- getBasicAuthHeader;
    do response <- fetch (Request PINTEREST_TOKEN_URL "POST" auth
                                  "application/x-www-form-urlencoded" body);
    if negb (res_ok response) then
      do errorText <- res_text response;
      throw (ErrorStatus "Token refresh failed" (res_status response) errorText)
    else
      do data <- res_json response;
      do access <- lift (get data "access_token");
      do new_refresh <- lift (get data "refresh_token");
      do old_refresh <- lift (get tokens "refresh_token");
      do now <- Date_now;
      do expires_in <- lift (get data "expires_in");
      do lifetime <- js_mul expires_in (Fin 1000);
      do refresh_at <- lift (get data "refresh_token_expires_at");
      do refresh_expiry <-
        (if truthy refresh_at
         then do ms <- js_mul refresh_at (Fin 1000); ret (VNum ms)
         else lift (get tokens "refresh_token_expires_at"));
      do new_scope <- lift (get data "scope");
      do old_scope <- lift (get tokens "scope");
      let newTokens :=
        record access (nullish new_refresh old_refresh)
               (VNum (num_add (Fin now) lifetime)) refresh_expiry
               (nullish new_scope old_scope) in
      step saveTokens newTokens;
      step console_error "[auth] Access token refreshed successfully." [];
      ret newTokens.

(** *** Public API *)

Definition getValidAccessToken : M value :=
  do direct <- process_env "PINTEREST_ACCESS_TOKEN";
  if is_set direct then ret (VStr (default "" direct))
  else
    do tokens <- loadTokens;
    if negb (truthy tokens) then
      throw (Error "Not authenticated. Use the pinterest_auth tool first, or set PINTEREST_ACCESS_TOKEN env var.")
    else
      do expiry <- lift (get tokens "expires_at");
      do now <- Date_now;
      do valid <- js_gt expiry (Fin (now + TOKEN_EXPIRY_BUFFER_MS));
      if valid then lift (get tokens "access_token")
      else
        do refresh <- lift (get tokens "refresh_token");
        if negb (truthy refresh) then
          throw (Error "Access token expired and no refresh token available. Generate a new token or use pinterest_auth.")
        else
          do refresh_expiry <- lift (get tokens "refresh_token_expires_at");
          do now' <- Date_now;
          do expired <- js_lt refresh_expiry (Fin now');
          if expired then
            throw (Error "Refresh token has expired. Please re-authenticate using pinterest_auth.")
          else
            do newTokens <- refreshAccessToken;
            lift (get newTokens "access_token").

End Auth.
Export Auth.

(** ** Vocabulary of the properties *)

Module Props.

(** Whether a static access token is configured in the environment. *)
Definition static_token (w : world) : bool :=
  is_set (env w !! "PINTEREST_ACCESS_TOKEN").

(** Where the store lives: the results of [getTokenDir] and [getTokenPath]. *)
Definition token_dir (w : world) : path := path_join (homedir w) ".mcp-credentials".
Definition token_path (w : world) : path :=
  path_join (token_dir w) "pinterest-tokens.json".

(** The credential file can be read and holds the JSON text of [v]. *)
Definition on_disk (w : world) (v : value) : Prop :=
  exists m, fs w !! token_path w = Some (File m (Json v)) /\ owner_readable m = true.

(** [v] is the stored credential record: on disk, with an access token. *)
Definition stored (w : world) (v : value) : Prop :=
  on_disk w v /\ truthy (get_opt v "access_token") = true.

(** The [k]-th reading of the clock from now on; [now] is the next one. *)
Definition reading (k : nat) (w : world) : Z := clock w (k + clock_reads w)%nat.
Definition now (w : world) : Z := reading 0 w.

(** The events a computation adds to the log. *)
Definition events_of {A : Type} (c : M A) (w : world) : list event :=
  drop (length (trace w)) (trace (snd (c w))).

(** A computation that left the outside alone: not one event (so no
    network call and no write), the same files, the same endpoint. *)
Definition quiet (w w' : world) : Prop :=
  trace w' = trace w /\ fs w' = fs w /\ endpoint w' = endpoint w.

(** The application credentials are configured. *)
Definition app_configured (w : world) (id secret : string) : Prop :=
  env w !! "PINTEREST_APP_ID" = Some id /\ id <> "" /\
  env w !! "PINTEREST_APP_SECRET" = Some secret /\ secret <> "".

(** The refresh request for the refresh token [sent]. *)
Definition refresh_request (id secret : string) (sent : value) : request :=
  Request PINTEREST_TOKEN_URL "POST" (Basic (id ++ ":" ++ secret))
          "application/x-www-form-urlencoded"
          [("grant_type", VStr "refresh_token"); ("refresh_token", sent)].

(** The record [refreshAccessToken] builds from the stored properties
    [old] and the response [data], the clock being read in [w]. *)
Definition refreshed (w : world) (old data : list (string * value)) : value :=
  record (assoc "access_token" data)
         (nullish (assoc "refresh_token" data) (assoc "refresh_token" old))
         (VNum (num_add (Fin (now w)) (times (coerce w) (assoc "expires_in" data) (Fin 1000))))
         (if truthy (assoc "refresh_token_expires_at" data)
          then VNum (times (coerce w) (assoc "refresh_token_expires_at" data) (Fin 1000))
          else assoc "refresh_token_expires_at" old)
         (nullish (assoc "scope" data) (assoc "scope" old)).

(** The events of a refresh that goes through. *)
Definition refresh_events (w : world) (id secret : string) (sent : value) (d : text) : list event :=
  [EvLog "[auth] Refreshing access token..." [];
   EvFetch (refresh_request id secret sent);
   EvWriteFile (token_path w) d;
   EvLog "[auth] Tokens saved to" [ArgPath (token_path w)];
   EvLog "[auth] Access token refreshed successfully." []].

(** The requests that went out to the network. *)
Definition network_calls (evs : list event) : list request :=
  omap (fun e => match e with EvFetch req => Some req | _ => None end) evs.

(** What the store contract of the specification says [load] returns when
    no static token is configured: absent ([null]) when the file is
    missing, cannot be read, is malformed, or parses to something whose
    access token is missing or empty (fails the truth test of the code);
    the parsed record otherwise. *)
Definition load_contract (w : world) : value :=
  match fs w !! token_path w with
  | None => VNull
  | Some (Dir _) => VNull
  | Some (File m d) =>
      if negb (owner_readable m) then VNull
      else match d with
           | NotJson _ => VNull
           | Json v => if truthy (get_opt v "access_token") then v else VNull
           end
  end.

(** The ordering the specification asks of a handshake: whenever the
    browser is launched, the listener has bound its port earlier on. *)
Definition listener_ready_before_launch (evs : list event) : Prop :=
  forall before u after,
    evs = before ++ EvOpen u :: after ->
    EvListen OAUTH_CALLBACK_PORT true ∈ before.

(** The same with the call to [server.listen] in place of its success. *)
Definition listen_called_before_launch (evs : list event) : Prop :=
  forall before u after,
    evs = before ++ EvOpen u :: after ->
    exists bound, EvListen OAUTH_CALLBACK_PORT bound ∈ before.

(** A computation all of whose events satisfy [P]. *)
Definition emits (P : event -> Prop) {A : Type} (c : M A) : Prop :=
  forall w, exists evs, trace (snd (c w)) = trace w ++ evs /\ Forall P evs.

(** Any event but the launch of the browser. *)
Definition not_launch (e : event) : Prop :=
  match e with
  | EvOpen _ => False
  | _ => True
  end.

(** The URL the handshake sends the browser to. *)
Definition authorization_url (consumer state : string) : url :=
  Url PINTEREST_AUTH_URL
      [("consumer_id", consumer); ("redirect_uri", OAUTH_REDIRECT_URI);
       ("response_type", "code"); ("refreshable", "true");
       ("scope", OAUTH_SCOPES); ("state", state)].

(** *** Sample worlds *)

Definition sample_home : path := ["home"; "ada"].
Definition sample_dir : path := ["home"; "ada"; ".mcp-credentials"].
Definition sample_path : path :=
  ["home"; "ada"; ".mcp-credentials"; "pinterest-tokens.json"].

(** A clock that starts at [t] and advances by a millisecond per reading. *)
Definition ticking (t : Z) : nat -> Z := fun n => t + Z.of_nat n.

Definition sample_now : Z := 1700000000000.

(** A machine with umask 0o022, a home directory, and nothing else. *)
Definition bare_files : gmap path node :=
  <[sample_home := Dir 493]> (<[["home"] := Dir 493]> ∅).

(** The same with the credential directory and a credential file of mode
    0o600 holding [v]. *)
Definition files_with (v : value) : gmap path node :=
  <[sample_path := File 384 (Json v)]> (<[sample_dir := Dir 493]> bare_files).

Definition sample_env : gmap string string :=
  <["PINTEREST_APP_SECRET" := "s3cret"]> (<["PINTEREST_APP_ID" := "1234"]> ∅).

Definition sample_world (environment : gmap string string)
    (files : gmap path node) (replies : list fetched) : world :=
  World environment sample_home 18 files (ticking sample_now) 0 (fun _ => NaN)
        (fun _ => "6f1c2d3e-0000-4000-8000-000000000000") 0 replies ∅ true [] false [].

(** The sample machine with the callback port held by another program. *)
Definition busy_port_world : world :=
  World sample_env sample_home 18 bare_files (ticking sample_now) 0 (fun _ => NaN)
        (fun _ => "6f1c2d3e-0000-4000-8000-000000000000") 0 [] {[OAUTH_CALLBACK_PORT]}
        true [] false [].

End Props.
Export Props.

(** ** src/auth.ts, the status report *)

Module Status.

Local Open Scope js_scope.

(** The text [toISOString] renders, kept as the time value it renders. *)
Inductive iso : Type :=
| Iso (ms : Z).

(** The object [getAuthStatus] returns. *)
Record auth_status : Type := AuthStatus {
  authenticated : bool;
  accessTokenValid : bool;
  refreshTokenValid : bool;
  expiresAt : option iso;
  refreshExpiresAt : option iso;
  scopes : value
}.

(** TimeClip: a time value beyond 8.64e15 ms either side of the epoch is
    not a date. *)
Definition time_clip (n : num) : num :=
  match n with
  | Fin z => if Z.abs z <=? 8640000000000000 then Fin z else NaN
  | NaN => NaN
  end.

(** [new Date(v)], as its time value.  A string is parsed as a date, an
    object goes through ToPrimitive first: that part of the runtime is the
    parameter [parse]. *)
Definition new_Date (parse : value -> num) (v : value) : num :=
  time_clip
    match v with
    | VUndefined => NaN
    | VNull => Fin 0
    | VBool b => Fin (if b then 1 else 0)
    | VNum n => n
    | VStr _ | VObj _ | VArr _ => parse v
    end.

(** [date.toISOString()] *)
Definition toISOString (t : num) : outcome iso :=
  match t with
  | Fin z => Ret (Iso z)
  | NaN => Throw (Native "RangeError")
  end.

Definition getAuthStatus (parse : value -> num) : M auth_status :=
  do tokens <- loadTokens;
  if negb (truthy tokens) then
    ret (AuthStatus false false false None None VNull)
  else
    do now <- Date_now;
    do expiry <- lift (get tokens "expires_at");
    do access_valid <- js_gt expiry (Fin now);
    do refresh_expiry <- lift (get tokens "refresh_token_expires_at");
    do refresh_valid <- js_gt refresh_expiry (Fin now);
    do expires <- lift (toISOString (new_Date parse expiry));
    do refresh_expires <- lift (toISOString (new_Date parse refresh_expiry));
    do granted <- lift (get tokens "scope");
    ret (AuthStatus true access_valid refresh_valid
                    (Some expires) (Some refresh_expires) granted).

End Status.
Export Status.

(** ** Vocabulary of the further properties *)

Module Further.

(** The first request that reaches the callback path, if any: the one the
    handler settles the promise on. *)
Fixpoint first_callback (reqs : list callback) : option callback :=
  match reqs with
  | [] => None
  | req :: rest =>
      if String.eqb (cb_pathname req) "/callback" then Some req
      else first_callback rest
  end.

(** The requests that come after the first one on the callback path. *)
Fixpoint after_callback (reqs : list callback) : list callback :=
  match reqs with
  | [] => []
  | req :: rest =>
      if String.eqb (cb_pathname req) "/callback" then rest
      else after_callback rest
  end.



(** How a session with the expected [state] ends on the decisive request
    [decisive], or on none. *)
Definition verdict (state : string) (decisive : option callback) : outcome string :=
  match decisive with
  | None => Throw (Error "OAuth timeout: no callback received within 2 minutes.")
  | Some req =>
      if negb (bool_decide (cb_state req = Some state))
      then Throw (Error "OAuth state mismatch.")
      else if negb (is_set (cb_code req))
      then Throw (Error "No authorization code in callback.")
      else Ret (default "" (cb_code req))
  end.

(** The ports closed, the statuses answered and the files written, in
    the order of the events. *)
Definition closes (evs : list event) : list Z :=
  omap (fun e => match e with EvClose port => Some port | _ => None end) evs.


Definition writes (evs : list event) : list path :=
  omap (fun e => match e with EvWriteFile p _ => Some p | _ => None end) evs.

(** Any event but a network call. *)
Definition not_fetch (e : event) : Prop :=
  match e with
  | EvFetch _ => False
  | _ => True
  end.

(** Any event that is not part of a handshake: no timer, no listener, no
    response, no browser. *)
Definition not_handshake (e : event) : Prop :=
  match e with
  | EvLog _ _ | EvFetch _ | EvMkdir _ _ | EvWriteFile _ _ => True
  | _ => False
  end.

(** Any event but a network call or a write to the file system. *)
Definition harmless (e : event) : Prop :=
  match e with
  | EvFetch _ | EvMkdir _ _ | EvWriteFile _ _ => False
  | _ => True
  end.

(** A computation that makes at most [n] network calls. *)
Definition calls_at_most (n : nat) {A : Type} (c : M A) : Prop :=
  forall w, exists evs,
    trace (snd (c w)) = trace w ++ evs /\ (length (network_calls evs) <= n)%nat.




(** The exchange request for the authorization code [code]. *)
Definition exchange_request (id secret code : string) : request :=
  Request PINTEREST_TOKEN_URL "POST" (Basic (id ++ ":" ++ secret))
          "application/x-www-form-urlencoded"
          [("grant_type", VStr "authorization_code"); ("code", VStr code);
           ("redirect_uri", VStr OAUTH_REDIRECT_URI)].

(** What a handshake step leaves as it was: the configuration, the files,
    the replies still to come and the clock. *)
Definition same_setting (w w' : world) : Prop :=
  env w' = env w /\ homedir w' = homedir w /\ umask w' = umask w /\
  fs w' = fs w /\ endpoint w' = endpoint w /\ clock w' = clock w /\
  clock_reads w' = clock_reads w /\ coerce w' = coerce w.

(** The end of [startOAuthFlow], from the moment [await codePromise] has
    returned [code]. *)
Definition finish_flow (code : string) : M string :=
  (step console_error "[auth] Authorization code received. Exchanging for tokens..." [];
   do tokens <- exchangeCodeForTokens code;
   step saveTokens tokens;
   step console_error "[auth] OAuth flow completed successfully." [];
   ret "Successfully authenticated with Pinterest!"%string)%js.

(** The sample machine before a handshake: the callback port is free, the
    browser can be launched, [reqs] are the requests that will reach the
    listener and [replies] what the token endpoint will answer. *)
Definition sample_state : string := "6f1c2d3e-0000-4000-8000-000000000000".

Definition handshake_world (reqs : list callback) (replies : list fetched) : world :=
  World sample_env sample_home 18 bare_files (ticking sample_now) 0 (fun _ => NaN)
        (fun _ => sample_state) 0 replies ∅ true reqs false [].

End Further.
Export Further.

(** ** Running the store *)

Section Store.

Local Open Scope js_scope.

Lemma getTokenDir_run (w : world) : getTokenDir w = (Ret (token_dir w), w).
Proof. reflexivity. Qed.

Lemma getTokenPath_run (w : world) : getTokenPath w = (Ret (token_path w), w).
Proof. reflexivity. Qed.

Lemma bind_run {A B : Type} (c : M A) (k : A -> M B) (w w' : world) (a : A) :
  c w = (Ret a, w') -> bind c k w = k a w'.
Proof. intros H. unfold bind. now rewrite H. Qed.

Lemma bind_throw {A B : Type} (c : M A) (k : A -> M B) (w w' : world) (e : exn) :
  c w = (Throw e, w') -> bind c k w = (Throw e, w').
Proof. intros H. unfold bind. now rewrite H. Qed.

Lemma stored_object (w : world) (v : value) :
  stored w v -> exists ps, v = VObj ps.
Proof. intros [_ H]. destruct v; try discriminate. eauto. Qed.

(** Without a static token, [loadTokens] is the store contract, and it
    leaves the world as it was. *)
Lemma loadTokens_contract (w : world) :
  static_token w = false -> loadTokens w = (Ret (load_contract w), w).
Proof.
  intros Hs. unfold loadTokens, bind, process_env.
  unfold static_token in Hs. rewrite Hs.
  unfold try_catch, bind. rewrite getTokenPath_run.
  unfold readFileSync, load_contract.
  destruct (fs w !! token_path w) as [[m|m [raw|v]]|]; try reflexivity.
  - destruct (owner_readable m); reflexivity.
  - destruct (owner_readable m); [|reflexivity].
    unfold lift. simpl. destruct v; simpl; try reflexivity.
    destruct (truthy (assoc "access_token" props)); reflexivity.
Qed.

(** With a static token [loadTokens] makes a record up and returns it. *)
Lemma loadTokens_static (w : world) :
  static_token w = true ->
  loadTokens w =
    (Ret (record (VStr (default "" (env w !! "PINTEREST_ACCESS_TOKEN"))) (VStr "")
                 (VNum (Fin (now w + 24 * 60 * 60 * 1000))) (VNum (Fin 0))
                 (VStr "pins:read,boards:read,user_accounts:read,ads:read,catalogs:read")),
     set_clock_reads (S (clock_reads w)) w).
Proof.
  intros Hs. unfold loadTokens, bind, process_env.
  unfold static_token in Hs. rewrite Hs. reflexivity.
Qed.

Lemma load_contract_stored (w : world) (v : value) :
  stored w v -> load_contract w = v.
Proof.
  intros [[m [Hf Hr]] Ht]. unfold load_contract. now rewrite Hf, Hr, Ht.
Qed.

Lemma loadTokens_stored (w : world) (v : value) :
  static_token w = false -> stored w v -> loadTokens w = (Ret v, w).
Proof.
  intros Hs Hv. rewrite (loadTokens_contract w Hs).
  now rewrite (load_contract_stored w v Hv).
Qed.

End Store.

(** ** Saving *)

Section Saving.

Lemma mkdirs_longer (todo : list string) :
  forall (above : path) (mode : Z) (m m' : gmap path node) (evs : list event) (q : path),
    mkdirs above todo mode m = (Ret m', evs) ->
    (length (above ++ todo) < length q)%nat ->
    m' !! q = m !! q.
Proof.
  induction todo as [|name rest IH]; intros above mode m m' evs q Hrun Hlen.
  - cbn in Hrun. now inversion Hrun.
  - cbn in Hrun.
    assert (length ((above ++ [name]) ++ rest) < length q)%nat as Hlen'
      by (rewrite <- app_assoc; exact Hlen).
    destruct (m !! (above ++ [name])) as [[dm|fm fd]|] eqn:Hhere.
    + exact (IH _ _ _ _ _ _ Hrun Hlen').
    + discriminate.
    + destruct (mkdirs (above ++ [name]) rest mode _) as [r evs'] eqn:Hrec.
      inversion Hrun; subst.
      rewrite (IH _ _ _ _ _ _ Hrec Hlen').
      apply lookup_insert_ne. intros <-.
      rewrite length_app in Hlen'. lia.
Qed.

Lemma mkdirs_creates (todo : list string) :
  forall (above : path) (mode : Z) (m m' : gmap path node) (evs : list event),
    mkdirs above todo mode m = (Ret m', evs) ->
    todo <> [] ->
    m !! (above ++ todo) = None ->
    m' !! (above ++ todo) = Some (Dir mode).
Proof.
  induction todo as [|name rest IH]; intros above mode m m' evs Hrun Hne Hnone.
  - contradiction.
  - cbn in Hrun. destruct rest as [|name' rest'].
    + rewrite Hnone in Hrun. cbn in Hrun. inversion Hrun; subst.
      apply lookup_insert_eq.
    + assert (above ++ name :: name' :: rest' = (above ++ [name]) ++ name' :: rest') as Heq
        by (now rewrite <- app_assoc).
      rewrite Heq in *.
      destruct (m !! (above ++ [name])) as [[dm|fm fd]|] eqn:Hhere.
      * apply (IH _ _ _ _ _ Hrun); [discriminate | exact Hnone].
      * discriminate.
      * destruct (mkdirs (above ++ [name]) (name' :: rest') mode _) as [r evs'] eqn:Hrec.
        inversion Hrun; subst.
        apply (IH _ _ _ _ _ Hrec); [discriminate|].
        rewrite lookup_insert_ne; [exact Hnone|].
        intros Hsame. apply (f_equal length) in Hsame.
        rewrite !length_app in Hsame. cbn in Hsame. lia.
Qed.

Lemma emitted_setup (evs : list event) :
  forall w : world,
    let w' := fold_left (fun w' e => emit e w') evs w in
    env w' = env w /\ homedir w' = homedir w /\ umask w' = umask w /\ fs w' = fs w.
Proof.
  induction evs as [|e evs IH]; intros w; cbn.
  - repeat split.
  - destruct (IH (emit e w)) as (H1 & H2 & H3 & H4). repeat split; assumption.
Qed.

Lemma existsSync_run (p : path) (w : world) :
  p <> [] -> existsSync p w = (Ret (bool_decide (is_Some (fs w !! p))), w).
Proof. destruct p; [contradiction | reflexivity]. Qed.

Lemma token_dir_not_root (w : world) : token_dir w <> [].
Proof.
  unfold token_dir, path_join. intros H. apply app_eq_nil in H. destruct H. discriminate.
Qed.

Lemma token_path_below_dir (w : world) :
  (length ([] ++ token_dir w) < length (token_path w))%nat.
Proof. unfold token_path, path_join. cbn. rewrite length_app. cbn. lia. Qed.

Lemma token_path_not_dir (w : world) : token_path w <> token_dir w.
Proof.
  intros H. pose proof (token_path_below_dir w) as Hlt. rewrite H in Hlt. cbn in Hlt. lia.
Qed.

(** What a save that returns has done to the store. *)
Lemma saveTokens_inv (tokens : value) (w w1 : world) :
  saveTokens tokens w = (Ret tt, w1) ->
  exists d m,
    JSON_stringify tokens = Some d /\
    fs w1 !! token_path w = Some (File m d) /\
    env w1 = env w /\ homedir w1 = homedir w /\
    (fs w !! token_path w = None -> m = masked 384 (umask w)) /\
    (forall m0 d0, fs w !! token_path w = Some (File m0 d0) -> m = m0) /\
    (fs w !! token_dir w = None ->
     fs w1 !! token_dir w = Some (Dir (masked 511 (umask w)))).
Proof.
  unfold saveTokens. unfold bind at 1. rewrite getTokenDir_run.
  unfold bind at 1. rewrite (existsSync_run _ _ (token_dir_not_root w)).
  unfold bind at 1.
  assert ((exists wm,
    (if negb (bool_decide (is_Some (fs w !! token_dir w)))
     then mkdirSync_recursive (token_dir w) else ret ()) w = (Ret tt, wm) /\
    env wm = env w /\ homedir wm = homedir w /\ umask wm = umask w /\
    fs wm !! token_path w = fs w !! token_path w /\
    (fs w !! token_dir w = None ->
     fs wm !! token_dir w = Some (Dir (masked 511 (umask w)))))
    \/ exists e wm, (if negb (bool_decide (is_Some (fs w !! token_dir w)))
     then mkdirSync_recursive (token_dir w) else ret ()) w = (Throw e, wm)) as Hmk.
  { case_bool_decide as Hdir; cbn [negb].
    - left. exists w. repeat split. intros Hnone. rewrite Hnone in Hdir.
      destruct Hdir as [x Hx]. discriminate.
    - unfold mkdirSync_recursive.
      destruct (mkdirs [] (token_dir w) (masked 511 (umask w)) (fs w)) as [[m'|e] evs] eqn:Hrun.
      + left. eexists. split; [reflexivity|].
        destruct (emitted_setup evs w) as (H1 & H2 & H3 & H4).
        cbn [env homedir umask fs set_fs].
        repeat split; try assumption.
        * apply (mkdirs_longer _ _ _ _ _ _ _ Hrun). apply token_path_below_dir.
        * intros Hnone.
          apply (mkdirs_creates _ [] _ _ _ _ Hrun); [apply token_dir_not_root | exact Hnone].
      + right. eauto. }
  destruct Hmk as [(wm & Hrun & Henv & Hhome & Hmask & Hfile & Hdir) | (e & wm & Hrun)];
    rewrite Hrun; [|discriminate].
  unfold bind at 1. rewrite getTokenPath_run.
  assert (token_path wm = token_path w) as Hp
    by (unfold token_path, token_dir; now rewrite Hhome).
  rewrite Hp.
  unfold bind at 1. unfold writeFileSync.
  destruct (JSON_stringify tokens) as [d|]; [|discriminate].
  rewrite Hfile.
  destruct (fs w !! token_path w) as [[dm|fm fd]|] eqn:Hold.
  - discriminate.
  - destruct (owner_writable fm); [|discriminate].
    unfold bind at 1. cbn. intros Heq. inversion Heq; subst w1; clear Heq.
    exists d, fm. cbn [fs env homedir emit set_fs].
    split; [reflexivity|]. split; [apply lookup_insert_eq|].
    repeat split; try assumption; try discriminate.
    + intros m0 d0 H0. now inversion H0.
    + intros Hnone. rewrite lookup_insert_ne by apply token_path_not_dir. auto.
  - destruct (is_dir (fs wm) (parent (token_path w))); [|discriminate].
    unfold bind at 1. cbn. intros Heq. inversion Heq; subst w1; clear Heq.
    exists d, (masked 384 (umask wm)). cbn [fs env homedir emit set_fs].
    split; [reflexivity|]. split; [apply lookup_insert_eq|].
    repeat split; try assumption; try discriminate.
    + intros _. now rewrite Hmask.
    + intros Hnone. rewrite lookup_insert_ne by apply token_path_not_dir. auto.
Qed.

End Saving.

(** ** The token-serving path *)

Section Serving.

Local Open Scope js_scope.

(** The steps of [getValidAccessToken] up to the validity test, on a
    stored record. *)
Lemma getValidAccessToken_stored (w : world) (ps : list (string * value)) :
  static_token w = false -> stored w (VObj ps) ->
  getValidAccessToken w =
    (let w1 := set_clock_reads (S (clock_reads w)) w in
     if greater (coerce w) (assoc "expires_at" ps) (Fin (now w + TOKEN_EXPIRY_BUFFER_MS))
     then (Ret (assoc "access_token" ps), w1)
     else if negb (truthy (assoc "refresh_token" ps))
     then (Throw (Error "Access token expired and no refresh token available. Generate a new token or use pinterest_auth."), w1)
     else
       let w2 := set_clock_reads (S (S (clock_reads w))) w in
       if less (coerce w) (assoc "refresh_token_expires_at" ps) (Fin (reading 1 w))
       then (Throw (Error "Refresh token has expired. Please re-authenticate using pinterest_auth."), w2)
       else bind refreshAccessToken (fun newTokens => lift (get newTokens "access_token")) w2).
Proof.
  intros Hs Hv. unfold getValidAccessToken.
  unfold bind at 1. unfold process_env at 1.
  pose proof Hs as Hs'. unfold static_token in Hs'. rewrite Hs'.
  rewrite (bind_run _ _ _ _ _ (loadTokens_stored w _ Hs Hv)).
  cbn [truthy negb]. unfold bind at 1. cbn [lift get].
  unfold bind at 1. unfold Date_now at 1.
  unfold bind at 1. unfold js_gt at 1. cbn [coerce set_clock_reads].
  unfold now, reading. cbn [Nat.add].
  destruct (greater _ _ _); [reflexivity|].
  unfold bind at 1. cbn [lift get].
  destruct (truthy (assoc "refresh_token" ps)); cbn [negb]; [|reflexivity].
  unfold bind at 1. cbn [lift get].
  unfold bind at 1. unfold Date_now at 1.
  unfold bind at 1. unfold js_lt at 1. cbn [coerce set_clock_reads clock clock_reads].
  destruct (less _ _ _); reflexivity.
Qed.

(** The refresh-expiry test of [getValidAccessToken], once the access
    token is found expired and the refresh token present. *)
Lemma refresh_expiry_test (w : world) (v : value) (e re : Z) (r : string) :
  static_token w = false ->
  stored w v ->
  get_opt v "expires_at" = VNum (Fin e) ->
  e <= now w + TOKEN_EXPIRY_BUFFER_MS ->
  get_opt v "refresh_token" = VStr r -> r <> "" ->
  get_opt v "refresh_token_expires_at" = VNum (Fin re) ->
  re < reading 1 w ->
  exists w',
    getValidAccessToken w =
      (Throw (Error "Refresh token has expired. Please re-authenticate using pinterest_auth."), w')
    /\ quiet w w'.
Proof.
  intros Hs Hv He Hle Hr Hne Hre Hlt.
  destruct (stored_object w v Hv) as [ps ->]. cbn [get_opt] in *.
  rewrite (getValidAccessToken_stored w ps Hs Hv). cbv zeta.
  unfold greater, less. rewrite He, Hr, Hre. cbn [to_number num_lt truthy].
  assert ((now w + TOKEN_EXPIRY_BUFFER_MS <? e) = false) as -> by (apply Z.ltb_ge; lia).
  assert (String.eqb r "" = false) as -> by (now apply String.eqb_neq).
  cbn [negb]. apply Z.ltb_lt in Hlt. rewrite Hlt.
  eexists. split; [reflexivity|]. repeat split.
Qed.

End Serving.

(** ** Refreshing *)

Section Refreshing.

Lemma getBasicAuthHeader_run (w : world) (id secret : string) :
  app_configured w id secret ->
  getBasicAuthHeader w = (Ret (Basic (id ++ ":" ++ secret)), w).
Proof.
  intros (Hid & Hidne & Hsec & Hsecne).
  unfold getBasicAuthHeader, getAppId, getAppSecret, bind, process_env.
  apply String.eqb_neq in Hidne, Hsecne.
  rewrite Hid. cbn. rewrite Hidne. cbn. rewrite Hsec. cbn. rewrite Hsecne. reflexivity.
Qed.

Lemma saveTokens_overwrite (v : value) (w : world) (m : Z) (old d : text) :
  is_Some (fs w !! token_dir w) ->
  fs w !! token_path w = Some (File m old) ->
  owner_writable m = true ->
  JSON_stringify v = Some d ->
  saveTokens v w =
    (Ret tt,
     emit (EvLog "[auth] Tokens saved to" [ArgPath (token_path w)])
          (emit (EvWriteFile (token_path w) d)
                (set_fs (<[token_path w := File m d]> (fs w)) w))).
Proof.
  intros Hdir Hfile Hw Hd.
  unfold saveTokens. unfold bind at 1. rewrite getTokenDir_run.
  unfold bind at 1. rewrite (existsSync_run _ _ (token_dir_not_root w)).
  rewrite bool_decide_eq_true_2 by exact Hdir. cbn [negb].
  unfold bind at 1. unfold ret at 1.
  unfold bind at 1. rewrite getTokenPath_run.
  unfold bind at 1. unfold writeFileSync. rewrite Hd, Hfile, Hw.
  reflexivity.
Qed.

Lemma refreshAccessToken_run (w : world) (ps ds : list (string * value))
    (m st : Z) (id secret : string) (rest : list fetched) :
  static_token w = false ->
  fs w !! token_path w = Some (File m (Json (VObj ps))) ->
  owner_readable m = true -> owner_writable m = true ->
  is_Some (fs w !! token_dir w) ->
  truthy (assoc "access_token" ps) = true ->
  truthy (assoc "refresh_token" ps) = true ->
  app_configured w id secret ->
  endpoint w = Responded (Response st (Json (VObj ds))) :: rest ->
  200 <= st <= 299 ->
  exists d w',
    JSON_stringify (refreshed w ps ds) = Some d /\
    refreshAccessToken w = (Ret (refreshed w ps ds), w') /\
    fs w' = <[token_path w := File m d]> (fs w) /\
    trace w' = trace w ++ refresh_events w id secret (assoc "refresh_token" ps) d /\
    endpoint w' = rest /\
    env w' = env w /\ homedir w' = homedir w.
Proof.
  intros Hs Hf Hr Hw Hdir Hat Hrt Happ Hnet Hok.
  assert (stored w (VObj ps)) as Hst by (split; [exists m; split; assumption | exact Hat]).
  destruct (json_of (refreshed w ps ds)) as [j|] eqn:Hj; [|discriminate].
  exists (Json j). eexists. split; [unfold JSON_stringify; now rewrite Hj|].
  unfold refreshAccessToken.
  rewrite (bind_run _ _ _ _ _ (loadTokens_stored w _ Hs Hst)).
  cbn [get_opt]. rewrite Hrt. cbn [negb].
  unfold bind at 1. unfold console_error at 1, tell at 1.
  unfold bind at 1. cbn [lift get].
  unfold bind at 1.
  rewrite (getBasicAuthHeader_run _ id secret) by exact Happ.
  unfold bind at 1. unfold fetch at 1. cbn [endpoint emit]. rewrite Hnet.
  assert (res_ok (Response st (Json (VObj ds))) = true) as Hres.
  { unfold res_ok. cbn. apply andb_true_iff. split; apply Z.leb_le; lia. }
  rewrite Hres. cbn [negb].
  unfold bind at 1. unfold res_json at 1. cbn [res_body JSON_parse lift].
  do 3 (unfold bind at 1; cbn [lift get]).
  unfold bind at 1. unfold Date_now at 1.
  unfold bind at 1; cbn [lift get].
  unfold bind at 1. unfold js_mul at 1.
  unfold bind at 1; cbn [lift get].
  assert (forall (wx : world) (k : value -> M value),
            bind (if truthy (assoc "refresh_token_expires_at" ds)
                  then bind (js_mul (assoc "refresh_token_expires_at" ds) (Fin 1000))
                            (fun ms => ret (VNum ms))
                  else lift (Ret (assoc "refresh_token_expires_at" ps))) k wx =
            k (if truthy (assoc "refresh_token_expires_at" ds)
               then VNum (times (coerce wx) (assoc "refresh_token_expires_at" ds) (Fin 1000))
               else assoc "refresh_token_expires_at" ps) wx) as Hexp.
  { intros wx k. destruct (truthy (assoc "refresh_token_expires_at" ds)); reflexivity. }
  rewrite Hexp. clear Hexp.
  do 2 (unfold bind at 1; cbn [lift get]).
  unfold bind at 1.
  erewrite saveTokens_overwrite; cycle 1.
  - cbn. exact Hdir.
  - cbn. exact Hf.
  - exact Hw.
  - unfold JSON_stringify. cbn [coerce set_clock_reads set_endpoint emit clock clock_reads].
    unfold refreshed, now, reading in Hj. cbn [Nat.add] in Hj. rewrite Hj. reflexivity.
  - unfold bind at 1. unfold console_error, tell, ret.
    split; [reflexivity|].
    cbn [fs trace endpoint env homedir emit set_fs set_clock_reads set_endpoint].
    repeat split.
    unfold refresh_events. rewrite <- !app_assoc. reflexivity.
Qed.
End Refreshing.

Section RefreshPath.

(** The whole of [getValidAccessToken] when it has to refresh and the
    refresh goes through. *)
Lemma getValidAccessToken_refreshes (w : world) (ps ds : list (string * value))
    (m st : Z) (id secret : string) (rest : list fetched) :
  static_token w = false ->
  fs w !! token_path w = Some (File m (Json (VObj ps))) ->
  owner_readable m = true -> owner_writable m = true ->
  is_Some (fs w !! token_dir w) ->
  truthy (assoc "access_token" ps) = true ->
  truthy (assoc "refresh_token" ps) = true ->
  greater (coerce w) (assoc "expires_at" ps) (Fin (now w + TOKEN_EXPIRY_BUFFER_MS)) = false ->
  less (coerce w) (assoc "refresh_token_expires_at" ps) (Fin (reading 1 w)) = false ->
  app_configured w id secret ->
  endpoint w = Responded (Response st (Json (VObj ds))) :: rest ->
  200 <= st <= 299 ->
  let w2 := set_clock_reads (S (S (clock_reads w))) w in
  exists d w',
    JSON_stringify (refreshed w2 ps ds) = Some d /\
    getValidAccessToken w = (Ret (assoc "access_token" ds), w') /\
    fs w' = <[token_path w := File m d]> (fs w) /\
    trace w' = trace w ++ refresh_events w id secret (assoc "refresh_token" ps) d /\
    endpoint w' = rest /\
    env w' = env w /\ homedir w' = homedir w.
Proof.
  intros Hs Hf Hr Hw Hdir Hat Hrt Hgt Hlt Happ Hnet Hok w2.
  assert (stored w (VObj ps)) as Hst by (split; [exists m; split; assumption | exact Hat]).
  destruct (refreshAccessToken_run w2 ps ds m st id secret rest Hs Hf Hr Hw Hdir Hat Hrt Happ Hnet Hok)
    as (d & w' & Hd & Hrun & Hfs & Htr & Hend & Henv & Hhome).
  exists d, w'. split; [exact Hd|].
  rewrite (getValidAccessToken_stored w ps Hs Hst). cbv zeta.
  rewrite Hgt, Hrt, Hlt. cbn [negb].
  fold w2. rewrite (bind_run _ _ _ _ _ Hrun).
  repeat split; assumption.
Qed.

Lemma no_refresh_token_fails (w : world) (v : value) :
  static_token w = false ->
  stored w v ->
  greater (coerce w) (get_opt v "expires_at") (Fin (now w + TOKEN_EXPIRY_BUFFER_MS)) = false ->
  truthy (get_opt v "refresh_token") = false ->
  exists w',
    getValidAccessToken w =
      (Throw (Error "Access token expired and no refresh token available. Generate a new token or use pinterest_auth."), w')
    /\ quiet w w'.
Proof.
  intros Hs Hv Hgt Hrt.
  destruct (stored_object w v Hv) as [ps ->]. cbn [get_opt] in *.
  rewrite (getValidAccessToken_stored w ps Hs Hv). cbv zeta.
  rewrite Hgt, Hrt. cbn [negb].
  eexists. split; [reflexivity|]. repeat split.
Qed.

End RefreshPath.

(** ** Events of the handshake *)

Create HintDb emits.

Section Events.

Variable P : event -> Prop.

Lemma emits_silent {A : Type} (c : M A) :
  (forall w, trace (snd (c w)) = trace w) -> emits P c.
Proof.
  intros H w. exists []. rewrite H, app_nil_r. split; [reflexivity | constructor].
Qed.

Lemma emits_ret {A : Type} (a : A) : emits P (ret a).
Proof. now apply emits_silent. Qed.

Lemma emits_throw {A : Type} (e : exn) : emits P (@throw A e).
Proof. now apply emits_silent. Qed.

Lemma emits_lift {A : Type} (o : outcome A) : emits P (lift o).
Proof. now apply emits_silent. Qed.

Lemma emits_bind {A B : Type} (c : M A) (k : A -> M B) :
  emits P c -> (forall a, emits P (k a)) -> emits P (bind c k).
Proof.
  intros Hc Hk w. unfold bind.
  destruct (Hc w) as (evs & Htr & Hall).
  destruct (c w) as [[a|e] w1]; cbn [snd] in *.
  - destruct (Hk a w1) as (evs' & Htr' & Hall').
    exists (evs ++ evs'). rewrite Htr', Htr, app_assoc. split; [reflexivity|].
    now apply Forall_app.
  - exists evs. split; assumption.
Qed.

Lemma emits_try_catch {A : Type} (c : M A) (h : exn -> M A) :
  emits P c -> (forall e, emits P (h e)) -> emits P (try_catch c h).
Proof.
  intros Hc Hh w. unfold try_catch.
  destruct (Hc w) as (evs & Htr & Hall).
  destruct (c w) as [[a|e] w1]; cbn [snd] in *.
  - exists evs. split; assumption.
  - destruct (Hh e w1) as (evs' & Htr' & Hall').
    exists (evs ++ evs'). rewrite Htr', Htr, app_assoc. split; [reflexivity|].
    now apply Forall_app.
Qed.

Lemma emits_if {A : Type} (b : bool) (c1 c2 : M A) :
  emits P c1 -> emits P c2 -> emits P (if b then c1 else c2).
Proof. now destruct b. Qed.

Lemma emits_tell (e : event) : P e -> emits P (tell e).
Proof.
  intros He w. exists [e]. split; [reflexivity | now constructor].
Qed.

Lemma emits_console_error (msg : string) (args : list log_arg) :
  P (EvLog msg args) -> emits P (console_error msg args).
Proof. apply emits_tell. Qed.

Lemma emits_process_env (name : string) : emits P (process_env name).
Proof. now apply emits_silent. Qed.

Lemma emits_Date_now : emits P Date_now.
Proof. now apply emits_silent. Qed.

Lemma emits_js_mul (v : value) (n : num) : emits P (js_mul v n).
Proof. now apply emits_silent. Qed.

Lemma emits_existsSync (p : path) : emits P (existsSync p).
Proof. now apply emits_silent. Qed.

Lemma emits_readFileSync (p : path) : emits P (readFileSync p).
Proof.
  apply emits_silent. intros w. unfold readFileSync.
  destruct (fs w !! p) as [[m|m d]|]; try reflexivity.
  now destruct (owner_readable m).
Qed.

Lemma emits_next_request : emits P next_request.
Proof.
  apply emits_silent. intros w. unfold next_request. now destruct (inbox w).
Qed.

Lemma emits_launched : emits P launched.
Proof.
  apply emits_silent. intros w. unfold launched. now destruct (browser w).
Qed.

Lemma emits_fetch (req : request) : P (EvFetch req) -> emits P (fetch req).
Proof.
  intros He w. exists [EvFetch req]. split; [|now constructor].
  unfold fetch. destruct (endpoint w) as [|[|r] rest]; reflexivity.
Qed.

Lemma emits_writeFileSync (p : path) (data : option text) (mode : Z) :
  (forall d, P (EvWriteFile p d)) -> emits P (writeFileSync p data mode).
Proof.
  intros He w. unfold writeFileSync.
  destruct data as [d|]; [|exists []; rewrite app_nil_r; split; [reflexivity|constructor]].
  destruct (fs w !! p) as [[m|m old]|].
  - exists []. rewrite app_nil_r. split; [reflexivity|constructor].
  - destruct (owner_writable m).
    + exists [EvWriteFile p d]. split; [reflexivity | now constructor].
    + exists []. rewrite app_nil_r. split; [reflexivity|constructor].
  - destruct (is_dir (fs w) (parent p)).
    + exists [EvWriteFile p d]. split; [reflexivity | now constructor].
    + exists []. rewrite app_nil_r. split; [reflexivity|constructor].
Qed.

Lemma trace_emitted (evs : list event) :
  forall w, trace (fold_left (fun w' e => emit e w') evs w) = trace w ++ evs.
Proof.
  induction evs as [|e evs IH]; intros w; cbn.
  - now rewrite app_nil_r.
  - rewrite IH. cbn. now rewrite <- app_assoc.
Qed.

Lemma mkdirs_events (todo : list string) :
  forall above mode m r evs,
    mkdirs above todo mode m = (r, evs) ->
    Forall (fun e => exists p md, e = EvMkdir p md) evs.
Proof.
  induction todo as [|name rest IH]; intros above mode m r evs Hrun; cbn in Hrun.
  - inversion Hrun. constructor.
  - destruct (m !! (above ++ [name])) as [[dm|fm fd]|].
    + exact (IH _ _ _ _ _ Hrun).
    + inversion Hrun. constructor.
    + destruct (mkdirs (above ++ [name]) rest mode _) as [r' evs'] eqn:Hrec.
      inversion Hrun; subst. constructor; [eauto | exact (IH _ _ _ _ _ Hrec)].
Qed.

Lemma emits_mkdirSync_recursive (p : path) :
  (forall q md, P (EvMkdir q md)) -> emits P (mkdirSync_recursive p).
Proof.
  intros He w. unfold mkdirSync_recursive.
  destruct (mkdirs [] p (masked 511 (umask w)) (fs w)) as [[m|e] evs] eqn:Hrun.
  - exists evs. cbn. rewrite trace_emitted. split; [reflexivity|].
    eapply Forall_impl; [exact (mkdirs_events _ _ _ _ _ _ Hrun)|].
    intros e (q & md & ->). apply He.
  - exists []. rewrite app_nil_r. split; [reflexivity|constructor].
Qed.

Lemma emits_server_listen (port : Z) :
  (forall b, P (EvListen port b)) -> emits P (server_listen port).
Proof.
  intros He w. unfold server_listen. case_bool_decide.
  - exists [EvListen port false]. split; [reflexivity | now constructor].
  - exists [EvListen port true]. split; [reflexivity | now constructor].
Qed.

Lemma emits_server_close (port : Z) : P (EvClose port) -> emits P (server_close port).
Proof.
  intros He w. exists [EvClose port]. split; [reflexivity | now constructor].
Qed.

End Events.

#[local] Hint Resolve emits_ret emits_throw emits_lift emits_process_env emits_Date_now
  emits_js_mul emits_existsSync emits_readFileSync emits_next_request emits_launched : emits.

Ltac emits_step :=
  first
    [ apply emits_bind; [|intros ?]
    | apply emits_if
    | apply emits_console_error; exact I
    | apply emits_tell; exact I
    | apply emits_fetch; exact I
    | apply emits_writeFileSync; intros; exact I
    | apply emits_mkdirSync_recursive; intros; exact I
    | apply emits_server_listen; intros; exact I
    | apply emits_server_close; exact I
    | solve [auto with emits] ].

Section Handshake.

Lemma emits_getAppId : emits not_launch getAppId.
Proof. unfold getAppId. repeat emits_step. Qed.

Lemma emits_getBasicAuthHeader : emits not_launch getBasicAuthHeader.
Proof.
  unfold getBasicAuthHeader, getAppId, getAppSecret. repeat emits_step.
Qed.

Lemma emits_saveTokens (tokens : value) : emits not_launch (saveTokens tokens).
Proof.
  unfold saveTokens, getTokenPath, getTokenDir, os_homedir. repeat emits_step.
  all: try (apply emits_silent; reflexivity).
Qed.

Lemma emits_exchangeCodeForTokens (code : string) :
  emits not_launch (exchangeCodeForTokens code).
Proof.
  unfold exchangeCodeForTokens, res_text, res_json.
  apply emits_bind; [apply emits_getBasicAuthHeader | intros auth].
  repeat emits_step.
Qed.

Lemma emits_cleanup : emits not_launch cleanup.
Proof. unfold cleanup. repeat emits_step. Qed.

Lemma emits_on_request (state : string) (req : callback) :
  emits not_launch (on_request state req).
Proof.
  unfold on_request.
  repeat first [ apply emits_cleanup | emits_step ].
Qed.

Lemma emits_serve (state : string) (reqs : list callback) :
  emits not_launch (serve state reqs).
Proof.
  induction reqs as [|req rest IH]; cbn [serve].
  - apply emits_bind; [apply emits_cleanup | intros _; apply emits_throw].
  - apply emits_bind; [apply emits_next_request | intros _].
    apply emits_bind; [apply emits_on_request | intros [[code|e]|]].
    + apply emits_ret.
    + apply emits_throw.
    + exact IH.
Qed.

Lemma emits_await_code (state : string) : emits not_launch (await_code state).
Proof.
  intros w. unfold await_code. destruct (listening w).
  - apply emits_serve.
  - apply emits_throw.
Qed.

Lemma emits_after_listen : emits not_launch after_listen.
Proof.
  intros w. unfold after_listen. destruct (listening w).
  - apply emits_console_error. exact I.
  - apply emits_tell. exact I.
Qed.

End Handshake.

Section Flow.

Lemma first_launch (before0 : list event) :
  forall (u u' : url) (rest before after : list event),
    Forall not_launch before0 ->
    Forall not_launch rest ->
    before0 ++ EvOpen u :: rest = before ++ EvOpen u' :: after ->
    before = before0.
Proof.
  induction before0 as [|e0 before0 IH]; intros u u' rest before after H0 Hrest Heq.
  - destruct before as [|e before]; [reflexivity|].
    cbn in Heq. injection Heq as _ Htail. subst rest.
    apply Forall_app in Hrest as [_ Hbad]. inversion Hbad as [|? ? Hopen _]. destruct Hopen.
  - inversion H0 as [|? ? He0 H0']; subst.
    destruct before as [|e before]; cbn in Heq.
    + injection Heq as Hhead _. subst e0. destruct He0.
    + injection Heq as Hhead Htail. subst e0.
      f_equal. exact (IH _ _ _ _ _ H0' Hrest Htail).
Qed.

(** The flow from the launch of the browser on. *)
Lemma launch_and_after {A : Type} (u : url) (meanwhile : M unit) (k : unit -> M A) :
  emits not_launch meanwhile ->
  (forall a, emits not_launch (k a)) ->
  forall w, exists evs,
    trace (snd (bind (open_browser u meanwhile) k w)) = trace w ++ EvOpen u :: evs /\
    Forall not_launch evs.
Proof.
  intros Hm Hk w.
  assert (emits not_launch (bind (bind meanwhile (fun _ => launched)) k)) as Hrest.
  { apply emits_bind; [|exact Hk].
    apply emits_bind; [exact Hm | intros _; apply emits_launched]. }
  destruct (Hrest (emit (EvOpen u) w)) as (evs & Htr & Hall).
  exists evs. split; [|exact Hall].
  change (bind (open_browser u meanwhile) k w)
    with (bind (bind meanwhile (fun _ => launched)) k (emit (EvOpen u) w)).
  rewrite Htr. cbn [trace emit]. now rewrite <- app_assoc.
Qed.

Lemma getAppId_run (w : world) :
  getAppId w =
    if is_set (env w !! "PINTEREST_APP_ID")
    then (Ret (default "" (env w !! "PINTEREST_APP_ID")), w)
    else (Throw (Error "PINTEREST_APP_ID environment variable is not set."), w).
Proof.
  unfold getAppId, bind, process_env.
  destruct (is_set (env w !! "PINTEREST_APP_ID")); reflexivity.
Qed.

Lemma waitForAuthorizationCode_run (state : string) (w : world) :
  exists w',
    waitForAuthorizationCode state w = (Ret tt, w') /\
    trace w' = trace w ++
      [EvSetTimeout OAUTH_TIMEOUT_MS;
       EvListen OAUTH_CALLBACK_PORT (negb (bool_decide (OAUTH_CALLBACK_PORT ∈ ports w)))].
Proof.
  unfold waitForAuthorizationCode, bind, tell, server_listen. cbn [ports emit].
  case_bool_decide; eexists; (split; [reflexivity|]); cbn; now rewrite <- app_assoc.
Qed.

Lemma emits_after_browser (state : string) :
  emits not_launch
    (bind (console_error "[auth] Browser opened. Waiting for authorization..." [])
       (fun _ =>
          bind (await_code state) (fun code =>
          bind (console_error "[auth] Authorization code received. Exchanging for tokens..." [])
            (fun _ =>
          bind (exchangeCodeForTokens code) (fun tokens =>
          bind (saveTokens tokens) (fun _ =>
          bind (console_error "[auth] OAuth flow completed successfully." []) (fun _ =>
          ret "Successfully authenticated with Pinterest!"%string))))))).
Proof.
  repeat first
    [ apply emits_await_code | apply emits_exchangeCodeForTokens
    | apply emits_saveTokens | apply emits_ret | emits_step ].
Qed.

Lemma startOAuthFlow_trace (w : world) :
  trace (snd (startOAuthFlow w)) = trace w \/
  exists consumer rest,
    let u := authorization_url consumer (uuids w (uuid_reads w)) in
    trace (snd (startOAuthFlow w)) =
      trace w ++
      [EvLog "[auth] Starting OAuth flow..." [];
       EvLog "[auth] Authorization URL:" [ArgUrl u];
       EvSetTimeout OAUTH_TIMEOUT_MS;
       EvListen OAUTH_CALLBACK_PORT (negb (bool_decide (OAUTH_CALLBACK_PORT ∈ ports w)));
       EvOpen u] ++ rest /\
    Forall not_launch rest.
Proof.
  unfold startOAuthFlow.
  erewrite bind_run by reflexivity.
  destruct (is_set (env w !! "PINTEREST_APP_ID")) eqn:Hid.
  - right. exists (default "" (env w !! "PINTEREST_APP_ID")).
    erewrite bind_run by (rewrite getAppId_run; cbn [env set_uuid_reads]; rewrite Hid; reflexivity).
    erewrite bind_run by reflexivity.
    erewrite bind_run by reflexivity.
    match goal with
    | |- context [bind (waitForAuthorizationCode ?s) _ ?w0] =>
        destruct (waitForAuthorizationCode_run s w0) as (w4 & Hrun & Htr)
    end.
    erewrite bind_run by exact Hrun.
    match goal with
    | |- context [bind (open_browser ?u ?m) ?k ?w0] =>
        destruct (launch_and_after u m k emits_after_listen
                    (fun _ => emits_after_browser _) w0) as (rest & Hrest & Hall)
    end.
    exists rest. cbv zeta. split; [|exact Hall].
    rewrite Hrest, Htr. cbn [trace emit set_uuid_reads ports console_error tell snd].
    rewrite <- !app_assoc. reflexivity.
  - left. erewrite bind_throw
      by (rewrite getAppId_run; cbn [env set_uuid_reads]; rewrite Hid; reflexivity).
    reflexivity.
Qed.

End Flow.

(** ** Properties of the token-serving path *)

(** C1.  For every stored credential record whose access expiry lies more
    than the 60-second buffer after the current time, with no static token
    in the environment, [getValidAccessToken] returns the record's access
    token as it is stored; it makes no network call and writes nothing. *)
Theorem fast_path_returns_cached_token (w : world) (v : value) (e : Z) :
  static_token w = false ->
  stored w v ->
  get_opt v "expires_at" = VNum (Fin e) ->
  now w + TOKEN_EXPIRY_BUFFER_MS < e ->
  exists w', getValidAccessToken w = (Ret (get_opt v "access_token"), w') /\ quiet w w'.
Proof.
  intros Hs Hv He Hlt.
  destruct (stored_object w v Hv) as [ps ->]. cbn [get_opt] in *.
  rewrite (getValidAccessToken_stored w ps Hs Hv). cbv zeta.
  unfold greater. rewrite He. cbn [to_number num_lt].
  apply Z.ltb_lt in Hlt. rewrite Hlt.
  eexists. split; [reflexivity|]. repeat split.
Qed.

Lemma fast_path_returns_cached_token_witness :
  let v := tokens_value (mkStoredTokens "A" "R" (sample_now + 3600000) (sample_now + 1000000000) "pins:read") in
  let w := sample_world sample_env (files_with v) [] in
  exists w', getValidAccessToken w = (Ret (VStr "A"), w') /\ quiet w w'.
Proof.
  intros v w.
  apply (fast_path_returns_cached_token w v (sample_now + 3600000)).
  - reflexivity.
  - split; [exists 384; split; reflexivity | reflexivity].
  - reflexivity.
  - vm_compute. reflexivity.
Defined.

(** C3.  For every stored record whose access expiry is not more than the
    buffer ahead, whose refresh token is not empty and whose refresh expiry
    has passed, with no static token, [getValidAccessToken] fails with the
    refresh-token-has-expired error; it makes no network call and the store
    is as it was. *)
Theorem expired_refresh_token_fails (w : world) (v : value) (e re : Z) (r : string) :
  static_token w = false ->
  stored w v ->
  get_opt v "expires_at" = VNum (Fin e) ->
  e <= now w + TOKEN_EXPIRY_BUFFER_MS ->
  get_opt v "refresh_token" = VStr r -> r <> "" ->
  get_opt v "refresh_token_expires_at" = VNum (Fin re) ->
  re < reading 1 w ->
  exists w',
    getValidAccessToken w =
      (Throw (Error "Refresh token has expired. Please re-authenticate using pinterest_auth."), w')
    /\ quiet w w'.
Proof.
  intros Hs Hv He Hle Hr Hne Hre Hlt.
  exact (refresh_expiry_test w v e re r Hs Hv He Hle Hr Hne Hre Hlt).
Qed.

Lemma expired_refresh_token_fails_witness :
  let v := tokens_value (mkStoredTokens "A" "R" (sample_now - 1000) (sample_now - 500) "pins:read") in
  let w := sample_world sample_env (files_with v) [] in
  exists w',
    getValidAccessToken w =
      (Throw (Error "Refresh token has expired. Please re-authenticate using pinterest_auth."), w')
    /\ quiet w w'.
Proof.
  intros v w.
  apply (expired_refresh_token_fails w v (sample_now - 1000) (sample_now - 500) "R").
  - reflexivity.
  - split; [exists 384; split; reflexivity | reflexivity].
  - reflexivity.
  - vm_compute. discriminate.
  - reflexivity.
  - discriminate.
  - reflexivity.
  - vm_compute. reflexivity.
Defined.

(** C4.  When a static access token is configured, [getValidAccessToken]
    returns exactly that string whatever the store holds: in any two
    worlds with that token configured the result is the same, and neither
    world changes (no refresh call, no write). *)
Theorem static_token_is_returned_as_is (w1 w2 : world) (tok : string) :
  env w1 !! "PINTEREST_ACCESS_TOKEN" = Some tok ->
  env w2 !! "PINTEREST_ACCESS_TOKEN" = Some tok ->
  tok <> "" ->
  getValidAccessToken w1 = (Ret (VStr tok), w1) /\
  getValidAccessToken w2 = (Ret (VStr tok), w2).
Proof.
  intros H1 H2 Hne.
  assert (is_set (Some tok) = true) as Hset.
  { cbn. apply String.eqb_neq in Hne. now rewrite Hne. }
  split; unfold getValidAccessToken, bind, process_env.
  - rewrite H1, Hset. reflexivity.
  - rewrite H2, Hset. reflexivity.
Qed.

Lemma static_token_is_returned_as_is_witness :
  let environment : gmap string string := <["PINTEREST_ACCESS_TOKEN" := "pina_static"]> ∅ in
  let v := tokens_value (mkStoredTokens "A" "R" (sample_now - 1000) (sample_now - 500) "pins:read") in
  let w1 := sample_world environment bare_files [] in
  let w2 := sample_world environment (files_with v) [] in
  getValidAccessToken w1 = (Ret (VStr "pina_static"), w1) /\
  getValidAccessToken w2 = (Ret (VStr "pina_static"), w2).
Proof.
  intros environment v w1 w2.
  apply (static_token_is_returned_as_is w1 w2 "pina_static").
  - reflexivity.
  - reflexivity.
  - discriminate.
Defined.

(** C5, as the code has it.  A refresh expiry of 0 is compared with the
    clock like any other timestamp: for a stored record with an expired
    access token, a refresh token that is not empty and a refresh expiry of
    0, whenever the clock reads a positive time [getValidAccessToken] fails
    with the refresh-token-has-expired error, without a network call and
    without touching the store.  The value 0 is what [loadTokens] puts in
    the record it makes up for a static token, whose refresh token is
    empty. *)
Theorem zero_refresh_expiry_counts_as_expired :
  (forall (w : world) (v : value) (e : Z) (r : string),
      static_token w = false ->
      stored w v ->
      get_opt v "expires_at" = VNum (Fin e) ->
      e <= now w + TOKEN_EXPIRY_BUFFER_MS ->
      get_opt v "refresh_token" = VStr r -> r <> "" ->
      get_opt v "refresh_token_expires_at" = VNum (Fin 0) ->
      0 < reading 1 w ->
      exists w',
        getValidAccessToken w =
          (Throw (Error "Refresh token has expired. Please re-authenticate using pinterest_auth."), w')
        /\ quiet w w')
  /\
  (forall (w : world),
      static_token w = true ->
      exists made w',
        loadTokens w = (Ret made, w') /\
        get_opt made "refresh_token" = VStr "" /\
        get_opt made "refresh_token_expires_at" = VNum (Fin 0)).
Proof.
  split.
  - intros w v e r Hs Hv He Hle Hr Hne Hre Hpos.
    apply (refresh_expiry_test w v e 0 r); assumption.
  - intros w Hs. rewrite (loadTokens_static w Hs).
    do 2 eexists. split; [reflexivity|]. split; reflexivity.
Qed.

Lemma zero_refresh_expiry_counts_as_expired_witness :
  let v := tokens_value (mkStoredTokens "A" "R" (sample_now - 1000) 0 "pins:read") in
  let w := sample_world sample_env (files_with v) [] in
  exists w',
    getValidAccessToken w =
      (Throw (Error "Refresh token has expired. Please re-authenticate using pinterest_auth."), w')
    /\ quiet w w'.
Proof.
  intros v w.
  apply (proj1 zero_refresh_expiry_counts_as_expired w v (sample_now - 1000) "R").
  - reflexivity.
  - split; [exists 384; split; reflexivity | reflexivity].
  - reflexivity.
  - vm_compute. discriminate.
  - reflexivity.
  - discriminate.
  - reflexivity.
  - vm_compute. reflexivity.
Defined.

(** C5, as the specification states it, fails: here is a stored record
    with an expired access token, the refresh token "R" and a refresh
    expiry of 0, for which [getValidAccessToken] does fail with the
    refresh-token-has-expired error. *)
Lemma zero_refresh_expiry_counterexample :
  let v := tokens_value (mkStoredTokens "A" "R" (sample_now - 1000) 0 "pins:read") in
  let w := sample_world sample_env (files_with v) [] in
  static_token w = false /\
  stored w v /\
  get_opt v "expires_at" = VNum (Fin (sample_now - 1000)) /\
  sample_now - 1000 <= now w + TOKEN_EXPIRY_BUFFER_MS /\
  get_opt v "refresh_token" = VStr "R" /\
  get_opt v "refresh_token_expires_at" = VNum (Fin 0) /\
  fst (getValidAccessToken w) =
    Throw (Error "Refresh token has expired. Please re-authenticate using pinterest_auth.").
Proof.
  intros v w. repeat split.
  - exists 384. split; reflexivity.
  - vm_compute. discriminate.
Qed.

(** C7.  [loadTokens] never raises.  With no static token configured it
    returns absent ([null]) when the credential file is missing, cannot be
    read, does not parse, or parses to something whose access token is
    missing or empty, and the parsed record otherwise; the world is left
    as it was. *)
Theorem loadTokens_never_raises :
  (forall w : world, exists r w', loadTokens w = (Ret r, w')) /\
  (forall w : world,
      static_token w = false ->
      loadTokens w = (Ret (load_contract w), w)).
Proof.
  split.
  - intros w. destruct (static_token w) eqn:Hs.
    + rewrite (loadTokens_static w Hs). eauto.
    + rewrite (loadTokens_contract w Hs). eauto.
  - exact loadTokens_contract.
Qed.

Lemma loadTokens_never_raises_witness :
  let broken : gmap path node :=
    <[sample_path := File 384 (NotJson "{ not json")]> (<[sample_dir := Dir 493]> bare_files) in
  let w := sample_world sample_env broken [] in
  loadTokens w = (Ret VNull, w).
Proof.
  intros broken w.
  apply (proj2 loadTokens_never_raises w).
  reflexivity.
Defined.

(** ** Properties of the store *)

(** C6.  Round trip: with no static token configured, a credential record
    (strings and timestamps, the access token not empty) that the store
    has written and can read back is loaded field for field as it was
    saved. *)
Theorem save_then_load_round_trip (w w1 : world) (t : StoredTokens) :
  static_token w = false ->
  access_token t <> "" ->
  saveTokens (tokens_value t) w = (Ret tt, w1) ->
  (exists m d, fs w1 !! token_path w1 = Some (File m d) /\ owner_readable m = true) ->
  loadTokens w1 = (Ret (tokens_value t), w1).
Proof.
  intros Hs Hne Hsave (m & d & Hfile & Hread).
  destruct (saveTokens_inv _ _ _ Hsave) as (d' & m' & Hd & Hf & Henv & Hhome & _).
  assert (token_path w1 = token_path w) as Hp
    by (unfold token_path, token_dir; now rewrite Hhome).
  rewrite Hp in Hfile. rewrite Hf in Hfile. inversion Hfile; subst m' d'.
  cbn in Hd. inversion Hd; subst d.
  apply loadTokens_stored.
  - unfold static_token. rewrite Henv. exact Hs.
  - split.
    + exists m. rewrite Hp. split; assumption.
    + cbn. apply String.eqb_neq in Hne. now rewrite Hne.
Qed.

Lemma save_then_load_round_trip_witness :
  let t := mkStoredTokens "A" "R" (sample_now + 3600000) (sample_now + 1000000000) "pins:read" in
  let w := sample_world sample_env bare_files [] in
  let w1 := snd (saveTokens (tokens_value t) w) in
  loadTokens w1 = (Ret (tokens_value t), w1).
Proof.
  intros t w w1.
  apply (save_then_load_round_trip w w1 t).
  - reflexivity.
  - discriminate.
  - reflexivity.
  - exists 384, (Json (tokens_value t)). split; reflexivity.
Defined.

(** Outside the credential records of the data model: a property that is
    [undefined] is not written, and a timestamp that is not a number comes
    back as [null]. *)
Remark json_drops_undefined_and_nan :
  JSON_stringify (record (VStr "A") VUndefined (VNum NaN) (VNum (Fin 0)) (VStr "pins:read")) =
  Some (Json (VObj [("access_token", VStr "A"); ("expires_at", VNull);
                    ("refresh_token_expires_at", VNum (Fin 0));
                    ("scope", VStr "pins:read")])).
Proof. reflexivity. Qed.

(** C8, as the code has it.  On every save that returns: a credential
    directory that was missing has been created with the default mode,
    0o777 masked by the umask of the process (no mode is passed for it);
    a credential file that was missing has been created with mode 0o600
    masked by the umask, which leaves no access to group or others. *)
Theorem save_modes (w w1 : world) (tokens : value) :
  saveTokens tokens w = (Ret tt, w1) ->
  (fs w !! token_dir w = None ->
   fs w1 !! token_dir w = Some (Dir (masked 511 (umask w)))) /\
  (fs w !! token_path w = None ->
   exists d,
     JSON_stringify tokens = Some d /\
     fs w1 !! token_path w = Some (File (masked 384 (umask w)) d) /\
     owner_only (masked 384 (umask w)) = true).
Proof.
  intros Hsave.
  destruct (saveTokens_inv _ _ _ Hsave) as (d & m & Hd & Hf & _ & _ & Hnew & _ & Hdir).
  split; [exact Hdir|].
  intros Hnone. exists d. rewrite <- (Hnew Hnone). repeat split; try assumption.
  rewrite (Hnew Hnone). unfold owner_only, masked.
  rewrite <- Z.land_assoc, (Z.land_comm (Z.lnot _)), Z.land_assoc.
  change (Z.land 384 63) with 0. rewrite Z.land_0_l. reflexivity.
Qed.

Lemma save_modes_witness :
  let v := tokens_value (mkStoredTokens "A" "R" (sample_now + 3600000) (sample_now + 1000000000) "pins:read") in
  let w := sample_world sample_env bare_files [] in
  let w1 := snd (saveTokens v w) in
  fs w1 !! token_dir w = Some (Dir 493) /\
  exists d,
    JSON_stringify v = Some d /\
    fs w1 !! token_path w = Some (File 384 d) /\
    owner_only 384 = true.
Proof.
  intros v w w1.
  destruct (save_modes w w1 v eq_refl) as [Hdir Hfile].
  split.
  - apply Hdir. reflexivity.
  - apply Hfile. reflexivity.
Defined.

(** C8, as the specification states it, fails: under the usual umask
    0o022 a save that has to create the credential directory leaves it
    with mode 0o755, which group and others can read and traverse. *)
Lemma save_directory_mode_counterexample :
  let v := tokens_value (mkStoredTokens "A" "R" (sample_now + 3600000) (sample_now + 1000000000) "pins:read") in
  let w := sample_world sample_env bare_files [] in
  let w1 := snd (saveTokens v w) in
  fs w !! token_dir w = None /\
  fst (saveTokens v w) = Ret tt /\
  fs w1 !! token_dir w = Some (Dir 493) /\
  owner_only 493 = false.
Proof. intros v w w1. repeat split. Qed.

(** A credential file that is already there keeps the mode it has: the
    [mode] option of [writeFileSync] only serves when the file is created. *)
Remark existing_file_keeps_its_mode :
  let v := tokens_value (mkStoredTokens "A" "R" (sample_now + 3600000) (sample_now + 1000000000) "pins:read") in
  let files : gmap path node :=
    <[sample_path := File 420 (Json VNull)]> (<[sample_dir := Dir 493]> bare_files) in
  let w := sample_world sample_env files [] in
  fs (snd (saveTokens v w)) !! token_path w = Some (File 420 (Json v)) /\
  owner_only 420 = false.
Proof. intros v files w. split; reflexivity. Qed.

(** ** Properties of the refresh *)

(** C2.  A stored record with an expired access token, the refresh token
    [r] and a refresh expiry that has not passed; no static token; the
    refresh call answered with success by [{access_token: b, expires_in}]
    and nothing else.  Then [getValidAccessToken] makes exactly one
    network call, the refresh request carrying [r]; it writes to the store
    the record with access token [b], refresh token [r] carried forward,
    access expiry [expires_in] seconds after the time it reads, refresh
    expiry and scope carried forward; and it returns [b]. *)
Theorem refresh_carries_forward
    (w : world) (ps ds : list (string * value)) (m st e re ein : Z)
    (id secret a r b : string) (rest : list fetched) :
  static_token w = false ->
  fs w !! token_path w = Some (File m (Json (VObj ps))) ->
  owner_readable m = true -> owner_writable m = true ->
  is_Some (fs w !! token_dir w) ->
  assoc "access_token" ps = VStr a -> a <> "" ->
  assoc "refresh_token" ps = VStr r -> r <> "" ->
  assoc "expires_at" ps = VNum (Fin e) -> e <= now w + TOKEN_EXPIRY_BUFFER_MS ->
  assoc "refresh_token_expires_at" ps = VNum (Fin re) -> reading 1 w <= re ->
  app_configured w id secret ->
  endpoint w = Responded (Response st (Json (VObj ds))) :: rest ->
  200 <= st <= 299 ->
  assoc "access_token" ds = VStr b ->
  assoc "expires_in" ds = VNum (Fin ein) ->
  assoc "refresh_token" ds = VUndefined ->
  assoc "refresh_token_expires_at" ds = VUndefined ->
  assoc "scope" ds = VUndefined ->
  exists d w',
    getValidAccessToken w = (Ret (VStr b), w') /\
    JSON_stringify (record (VStr b) (VStr r) (VNum (Fin (reading 2 w + ein * 1000)))
                           (VNum (Fin re)) (assoc "scope" ps)) = Some d /\
    fs w' = <[token_path w := File m d]> (fs w) /\
    trace w' = trace w ++ refresh_events w id secret (VStr r) d /\
    network_calls (refresh_events w id secret (VStr r) d) = [refresh_request id secret (VStr r)].
Proof.
  intros Hs Hf Hr Hw Hdir Ha Hane Hrt Hrne He Hle Hre Hge Happ Hnet Hok Hb Hein Hnr Hnre Hnsc.
  apply String.eqb_neq in Hane, Hrne.
  destruct (getValidAccessToken_refreshes w ps ds m st id secret rest Hs Hf Hr Hw Hdir)
    as (d & w' & Hd & Hrun & Hfs & Htr & _); try assumption.
  - rewrite Ha. cbn. now rewrite Hane.
  - rewrite Hrt. cbn. now rewrite Hrne.
  - unfold greater. rewrite He. cbn. apply Z.ltb_ge. lia.
  - unfold less. rewrite Hre. cbn. apply Z.ltb_ge. lia.
  - exists d, w'. rewrite Hb in Hrun. rewrite Hrt in Htr.
    unfold refreshed in Hd. rewrite Hb, Hein, Hnr, Hnre, Hnsc, Hrt, Hre in Hd.
    cbn [truthy nullish times to_number num_mul num_add coerce set_clock_reads] in Hd.
    repeat split; try assumption.
Qed.

Lemma refresh_carries_forward_witness :
  let ps := [("access_token", VStr "A"); ("refresh_token", VStr "R");
             ("expires_at", VNum (Fin (sample_now - 1000)));
             ("refresh_token_expires_at", VNum (Fin (sample_now + 1000000000)))] in
  let ds := [("access_token", VStr "B"); ("expires_in", VNum (Fin 3600))] in
  let w := sample_world sample_env (files_with (VObj ps))
                        [Responded (Response 200 (Json (VObj ds)))] in
  exists d w',
    getValidAccessToken w = (Ret (VStr "B"), w') /\
    JSON_stringify (record (VStr "B") (VStr "R") (VNum (Fin (reading 2 w + 3600 * 1000)))
                           (VNum (Fin (sample_now + 1000000000))) VUndefined) = Some d /\
    fs w' = <[token_path w := File 384 d]> (fs w) /\
    trace w' = trace w ++ refresh_events w "1234" "s3cret" (VStr "R") d /\
    network_calls (refresh_events w "1234" "s3cret" (VStr "R") d)
      = [refresh_request "1234" "s3cret" (VStr "R")].
Proof.
  intros ps ds w.
  apply (refresh_carries_forward w ps ds 384 200 (sample_now - 1000) (sample_now + 1000000000)
           3600 "1234" "s3cret" "A" "R" "B" []);
    first [ reflexivity | discriminate | (eexists; reflexivity)
          | (vm_compute; discriminate) | (repeat split; discriminate) | lia ].
Defined.

(** C10.  The two carry-forward rules of the refresh differ.  When the
    response carries a refresh token equal to the empty string, the empty
    string is what gets stored (the old refresh token is kept only for
    [null] and [undefined]); when it carries a refresh expiry of 0, the old
    refresh expiry is what gets stored.  With the empty refresh token in
    the store, the next call that finds the access token expired fails
    with the no-refresh-token error, without a network call. *)
Theorem empty_refresh_token_is_kept
    (w : world) (ps ds : list (string * value)) (m st e re ein : Z)
    (id secret a r b : string) (rest : list fetched) :
  static_token w = false ->
  fs w !! token_path w = Some (File m (Json (VObj ps))) ->
  owner_readable m = true -> owner_writable m = true ->
  is_Some (fs w !! token_dir w) ->
  assoc "access_token" ps = VStr a -> a <> "" ->
  assoc "refresh_token" ps = VStr r -> r <> "" ->
  assoc "expires_at" ps = VNum (Fin e) -> e <= now w + TOKEN_EXPIRY_BUFFER_MS ->
  assoc "refresh_token_expires_at" ps = VNum (Fin re) -> reading 1 w <= re ->
  app_configured w id secret ->
  endpoint w = Responded (Response st (Json (VObj ds))) :: rest ->
  200 <= st <= 299 ->
  assoc "access_token" ds = VStr b -> b <> "" ->
  assoc "expires_in" ds = VNum (Fin ein) ->
  assoc "refresh_token" ds = VStr "" ->
  assoc "refresh_token_expires_at" ds = VNum (Fin 0) ->
  exists d w',
    getValidAccessToken w = (Ret (VStr b), w') /\
    JSON_stringify (record (VStr b) (VStr "") (VNum (Fin (reading 2 w + ein * 1000)))
                           (VNum (Fin re))
                           (nullish (assoc "scope" ds) (assoc "scope" ps))) = Some d /\
    fs w' !! token_path w' = Some (File m d) /\
    (forall u : world,
        static_token u = false ->
        fs u !! token_path u = Some (File m d) ->
        reading 2 w + ein * 1000 <= now u + TOKEN_EXPIRY_BUFFER_MS ->
        exists u',
          getValidAccessToken u =
            (Throw (Error "Access token expired and no refresh token available. Generate a new token or use pinterest_auth."), u')
          /\ quiet u u').
Proof.
  intros Hs Hf Hr Hw Hdir Ha Hane Hrt Hrne He Hle Hre Hge Happ Hnet Hok Hb Hbne Hein Hnr Hnre.
  apply String.eqb_neq in Hane, Hrne.
  destruct (getValidAccessToken_refreshes w ps ds m st id secret rest Hs Hf Hr Hw Hdir)
    as (d & w' & Hd & Hrun & Hfs & Htr & _ & _ & Hhome); try assumption.
  - rewrite Ha. cbn. now rewrite Hane.
  - rewrite Hrt. cbn. now rewrite Hrne.
  - unfold greater. rewrite He. cbn. apply Z.ltb_ge. lia.
  - unfold less. rewrite Hre. cbn. apply Z.ltb_ge. lia.
  - exists d, w'. rewrite Hb in Hrun.
    unfold refreshed in Hd. rewrite Hb, Hein, Hnr, Hnre, Hre in Hd.
    cbn [truthy nullish times to_number num_mul num_add coerce set_clock_reads Z.eqb negb] in Hd.
    split; [exact Hrun|]. split; [exact Hd|]. split.
    + assert (token_path w' = token_path w) as ->
        by (unfold token_path, token_dir; now rewrite Hhome).
      rewrite Hfs. apply lookup_insert_eq.
    + intros u Hu Hfile Hexp.
      unfold JSON_stringify, record in Hd. cbn [json_of] in Hd.
      destruct (json_of (nullish (assoc "scope" ds) (assoc "scope" ps))) as [sc|];
        cbn in Hd; inversion Hd; subst d; clear Hd.
      all: eapply no_refresh_token_fails;
        [ exact Hu
        | split; [exists m; split; [exact Hfile | exact Hr] | cbn; apply String.eqb_neq in Hbne; now rewrite Hbne]
        | cbn; apply Z.ltb_ge; unfold now, reading in *; cbn in *; lia
        | reflexivity ].
Qed.

Lemma empty_refresh_token_is_kept_witness :
  let ps := [("access_token", VStr "A"); ("refresh_token", VStr "R");
             ("expires_at", VNum (Fin (sample_now - 1000)));
             ("refresh_token_expires_at", VNum (Fin (sample_now + 1000000000)));
             ("scope", VStr "pins:read")] in
  let ds := [("access_token", VStr "B"); ("expires_in", VNum (Fin 3600));
             ("refresh_token", VStr ""); ("refresh_token_expires_at", VNum (Fin 0))] in
  let w := sample_world sample_env (files_with (VObj ps))
                        [Responded (Response 200 (Json (VObj ds)))] in
  exists d w',
    getValidAccessToken w = (Ret (VStr "B"), w') /\
    JSON_stringify (record (VStr "B") (VStr "") (VNum (Fin (reading 2 w + 3600 * 1000)))
                           (VNum (Fin (sample_now + 1000000000)))
                           (VStr "pins:read")) = Some d /\
    fs w' !! token_path w' = Some (File 384 d) /\
    (forall u : world,
        static_token u = false ->
        fs u !! token_path u = Some (File 384 d) ->
        reading 2 w + 3600 * 1000 <= now u + TOKEN_EXPIRY_BUFFER_MS ->
        exists u',
          getValidAccessToken u =
            (Throw (Error "Access token expired and no refresh token available. Generate a new token or use pinterest_auth."), u')
          /\ quiet u u').
Proof.
  intros ps ds w.
  apply (empty_refresh_token_is_kept w ps ds 384 200 (sample_now - 1000)
           (sample_now + 1000000000) 3600 "1234" "s3cret" "A" "R" "B" []);
    first [ reflexivity | discriminate | (eexists; reflexivity)
          | (vm_compute; discriminate) | (repeat split; discriminate) | lia ].
Defined.

(** ** Properties of the handshake *)

(** C9, as the code has it.  In every run of the handshake the call to
    [server.listen] on the callback port comes before the launch of the
    browser; and in every run that starts with the callback port free, the
    listener has bound the port, and so accepts connections, before the
    browser is launched. *)
Theorem listen_precedes_browser_launch :
  (forall w : world, listen_called_before_launch (events_of startOAuthFlow w)) /\
  (forall w : world,
      OAUTH_CALLBACK_PORT ∉ ports w ->
      listener_ready_before_launch (events_of startOAuthFlow w)).
Proof.
  assert (forall w before u after,
             events_of startOAuthFlow w = before ++ EvOpen u :: after ->
             EvListen OAUTH_CALLBACK_PORT
                      (negb (bool_decide (OAUTH_CALLBACK_PORT ∈ ports w))) ∈ before) as Hcore.
  { intros w before u after Hev. unfold events_of in Hev.
    destruct (startOAuthFlow_trace w) as [Hnone | (consumer & rest & Htr & Hall)].
    - rewrite Hnone, drop_all in Hev. destruct before; discriminate.
    - cbv zeta in Htr. rewrite Htr, drop_app_length in Hev.
      change ([?e1; ?e2; ?e3; ?e4; EvOpen ?v] ++ rest)
        with ([e1; e2; e3; e4] ++ EvOpen v :: rest) in Hev.
      apply first_launch in Hev; [|repeat constructor | exact Hall].
      subst before. set_solver. }
  split.
  - intros w before u after Hev. eexists. exact (Hcore w before u after Hev).
  - intros w Hfree before u after Hev.
    pose proof (Hcore w before u after Hev) as Hin.
    rewrite bool_decide_eq_false_2 in Hin by exact Hfree. exact Hin.
Qed.

Lemma listen_precedes_browser_launch_witness :
  listener_ready_before_launch
    (events_of startOAuthFlow (sample_world sample_env bare_files [])).
Proof.
  apply (proj2 listen_precedes_browser_launch (sample_world sample_env bare_files [])).
  apply not_elem_of_empty.
Defined.

(** C9, as the specification states it, fails: when another program holds
    the callback port, the run launches the browser although the listener
    did not get its port. *)
Lemma busy_port_counterexample :
  let u := authorization_url "1234" "6f1c2d3e-0000-4000-8000-000000000000" in
  let before := [EvLog "[auth] Starting OAuth flow..." [];
                 EvLog "[auth] Authorization URL:" [ArgUrl u];
                 EvSetTimeout OAUTH_TIMEOUT_MS;
                 EvListen OAUTH_CALLBACK_PORT false] in
  (exists after, events_of startOAuthFlow busy_port_world = before ++ EvOpen u :: after) /\
  (EvListen OAUTH_CALLBACK_PORT true ∉ before) /\
  ~ listener_ready_before_launch (events_of startOAuthFlow busy_port_world).
Proof.
  intros u before.
  assert (EvListen OAUTH_CALLBACK_PORT true ∉ before) as Hnot.
  { intros Hin. unfold before in Hin.
    repeat (apply elem_of_cons in Hin as [Hin|Hin]; [discriminate|]).
    inversion Hin. }
  assert (exists after,
             events_of startOAuthFlow busy_port_world = before ++ EvOpen u :: after) as Hev
    by (eexists; vm_compute; reflexivity).
  split; [exact Hev|]. split; [exact Hnot|].
  intros Hready. destruct Hev as [after Hev].
  exact (Hnot (Hready before u after Hev)).
Qed.

(** * Further properties of the module *)

(** ** Serving a token: the branches that fail, and the refresh *)

Section MoreServing.

Lemma load_contract_absent (w : world) :
  (forall v, ~ stored w v) -> load_contract w = VNull.
Proof.
  intros Hnone. unfold load_contract.
  destruct (fs w !! token_path w) as [[m|m [raw|v]]|] eqn:Hf; try reflexivity.
  - now destruct (owner_readable m).
  - destruct (owner_readable m) eqn:Hr; [|reflexivity]. cbn.
    destruct (truthy (get_opt v "access_token")) eqn:Ht; [|reflexivity].
    exfalso. apply (Hnone v). split; [exists m; split; assumption | exact Ht].
Qed.

Lemma fetch_run (req : request) (w : world) :
  fetch req w =
    match endpoint w with
    | Responded r :: rest => (Ret r, set_endpoint rest (emit (EvFetch req) w))
    | NetworkError :: rest =>
        (Throw (Native "TypeError"), set_endpoint rest (emit (EvFetch req) w))
    | [] => (Throw (Native "TypeError"), emit (EvFetch req) w)
    end.
Proof. unfold fetch. destruct (endpoint w) as [|[|r] rest]; reflexivity. Qed.

(** A refresh that the token endpoint turns down. *)
Lemma refreshAccessToken_rejected (w : world) (ps : list (string * value))
    (id secret : string) (r : response) (rest : list fetched) :
  static_token w = false ->
  stored w (VObj ps) ->
  truthy (assoc "refresh_token" ps) = true ->
  app_configured w id secret ->
  endpoint w = Responded r :: rest ->
  res_ok r = false ->
  refreshAccessToken w =
    (Throw (ErrorStatus "Token refresh failed" (res_status r) (res_body r)),
     set_endpoint rest
       (emit (EvFetch (refresh_request id secret (assoc "refresh_token" ps)))
             (emit (EvLog "[auth] Refreshing access token..." []) w))).
Proof.
  intros Hs Hst Hrt Happ Hnet Hok.
  unfold refreshAccessToken.
  rewrite (bind_run _ _ _ _ _ (loadTokens_stored w _ Hs Hst)).
  cbn [get_opt]. rewrite Hrt. cbn [negb].
  erewrite bind_run by reflexivity.
  erewrite bind_run by reflexivity.
  erewrite bind_run by (apply getBasicAuthHeader_run; exact Happ).
  erewrite bind_run by (rewrite fetch_run; cbn [endpoint emit]; rewrite Hnet; reflexivity).
  rewrite Hok. reflexivity.
Qed.

(** A refresh that does not reach the token endpoint. *)
Lemma refreshAccessToken_unreachable (w : world) (ps : list (string * value))
    (id secret : string) :
  static_token w = false ->
  stored w (VObj ps) ->
  truthy (assoc "refresh_token" ps) = true ->
  app_configured w id secret ->
  (endpoint w = [] \/ exists rest, endpoint w = NetworkError :: rest) ->
  exists w',
    refreshAccessToken w = (Throw (Native "TypeError"), w') /\
    fs w' = fs w /\
    trace w' = trace w ++
      [EvLog "[auth] Refreshing access token..." [];
       EvFetch (refresh_request id secret (assoc "refresh_token" ps))].
Proof.
  intros Hs Hst Hrt Happ Hnet.
  unfold refreshAccessToken.
  rewrite (bind_run _ _ _ _ _ (loadTokens_stored w _ Hs Hst)).
  cbn [get_opt]. rewrite Hrt. cbn [negb].
  erewrite bind_run by reflexivity.
  erewrite bind_run by reflexivity.
  erewrite bind_run by (apply getBasicAuthHeader_run; exact Happ).
  destruct Hnet as [Hnet | [rest Hnet]].
  - erewrite bind_throw by (rewrite fetch_run; cbn [endpoint emit]; rewrite Hnet; reflexivity).
    eexists. split; [reflexivity|]. cbn. split; [reflexivity|]. now rewrite <- app_assoc.
  - erewrite bind_throw by (rewrite fetch_run; cbn [endpoint emit]; rewrite Hnet; reflexivity).
    eexists. split; [reflexivity|]. cbn. split; [reflexivity|]. now rewrite <- app_assoc.
Qed.



(** [getValidAccessToken] on a record that it has to refresh. *)
Lemma getValidAccessToken_must_refresh (w : world) (ps : list (string * value))
    (e re : Z) (r : string) :
  static_token w = false ->
  stored w (VObj ps) ->
  assoc "expires_at" ps = VNum (Fin e) -> e <= now w + TOKEN_EXPIRY_BUFFER_MS ->
  assoc "refresh_token" ps = VStr r -> r <> "" ->
  assoc "refresh_token_expires_at" ps = VNum (Fin re) -> reading 1 w <= re ->
  getValidAccessToken w =
    bind refreshAccessToken (fun newTokens => lift (get newTokens "access_token"))
         (set_clock_reads (S (S (clock_reads w))) w).
Proof.
  intros Hs Hst He Hle Hr Hne Hre Hge.
  rewrite (getValidAccessToken_stored w ps Hs Hst). cbv zeta.
  unfold greater, less. rewrite He, Hr, Hre. cbn [to_number num_lt truthy].
  assert ((now w + TOKEN_EXPIRY_BUFFER_MS <? e) = false) as -> by (apply Z.ltb_ge; lia).
  assert (String.eqb r "" = false) as -> by (now apply String.eqb_neq).
  assert ((re <? reading 1 w) = false) as -> by (apply Z.ltb_ge; lia).
  reflexivity.
Qed.

End MoreServing.

(** X1: with no static token configured and no credential record on disk
    (the file is missing, unreadable, malformed, or has no access token),
    [getValidAccessToken] raises the "Not authenticated" error and leaves
    the world exactly as it was. *)
Theorem not_authenticated_without_record (w : world) :
  static_token w = false ->
  (forall v, ~ stored w v) ->
  getValidAccessToken w =
    (Throw (Error "Not authenticated. Use the pinterest_auth tool first, or set PINTEREST_ACCESS_TOKEN env var."), w).
Proof.
  intros Hs Hnone. unfold getValidAccessToken.
  erewrite bind_run by reflexivity.
  pose proof Hs as Hs'. unfold static_token in Hs'. rewrite Hs'.
  erewrite bind_run by (apply loadTokens_contract; exact Hs).
  rewrite (load_contract_absent w Hnone). reflexivity.
Qed.

Lemma not_authenticated_without_record_witness :
  let w := sample_world sample_env bare_files [] in
  getValidAccessToken w =
    (Throw (Error "Not authenticated. Use the pinterest_auth tool first, or set PINTEREST_ACCESS_TOKEN env var."), w).
Proof.
  intros w. apply (not_authenticated_without_record w).
  - reflexivity.
  - intros v [[m [Hf _]] _]. vm_compute in Hf. discriminate.
Defined.

(** X2: a stored record whose access token is within the 60 s buffer of its
    expiry and whose refresh token is missing, [null] or empty makes
    [getValidAccessToken] raise "Access token expired and no refresh token
    available" without any event, and with the files and the endpoint
    untouched. *)
Theorem expired_without_refresh_token (w : world) (v : value) (e : Z) :
  static_token w = false ->
  stored w v ->
  get_opt v "expires_at" = VNum (Fin e) ->
  e <= now w + TOKEN_EXPIRY_BUFFER_MS ->
  get_opt v "refresh_token" = VUndefined \/ get_opt v "refresh_token" = VNull \/
    get_opt v "refresh_token" = VStr "" ->
  exists w',
    getValidAccessToken w =
      (Throw (Error "Access token expired and no refresh token available. Generate a new token or use pinterest_auth."), w')
    /\ quiet w w'.
Proof.
  intros Hs Hv He Hle Hr.
  apply (no_refresh_token_fails w v Hs Hv).
  - unfold greater. rewrite He. cbn. apply Z.ltb_ge. lia.
  - destruct Hr as [-> | [-> | ->]]; reflexivity.
Qed.

Lemma expired_without_refresh_token_witness :
  let v := tokens_value (mkStoredTokens "A" "" (sample_now - 1000) 0 "pins:read") in
  let w := sample_world sample_env (files_with v) [] in
  exists w',
    getValidAccessToken w =
      (Throw (Error "Access token expired and no refresh token available. Generate a new token or use pinterest_auth."), w')
    /\ quiet w w'.
Proof.
  intros v w.
  apply (expired_without_refresh_token w v (sample_now - 1000)).
  - reflexivity.
  - split; [exists 384; split; reflexivity | reflexivity].
  - reflexivity.
  - vm_compute. discriminate.
  - right. right. reflexivity.
Defined.

(** X3: when a refresh is due and the token endpoint answers outside
    200..299, [getValidAccessToken] raises "Token refresh failed" with the
    status and the body of the reply; one request went out, and the files
    are as they were: the old record is still the stored one. *)
Theorem rejected_refresh_leaves_store (w : world) (v : value) (e re : Z)
    (r id secret : string) (reply : response) (rest : list fetched) :
  static_token w = false ->
  stored w v ->
  get_opt v "expires_at" = VNum (Fin e) -> e <= now w + TOKEN_EXPIRY_BUFFER_MS ->
  get_opt v "refresh_token" = VStr r -> r <> "" ->
  get_opt v "refresh_token_expires_at" = VNum (Fin re) -> reading 1 w <= re ->
  app_configured w id secret ->
  endpoint w = Responded reply :: rest ->
  res_status reply < 200 \/ 299 < res_status reply ->
  exists w',
    getValidAccessToken w =
      (Throw (ErrorStatus "Token refresh failed" (res_status reply) (res_body reply)), w') /\
    fs w' = fs w /\
    trace w' = trace w ++
      [EvLog "[auth] Refreshing access token..." [];
       EvFetch (refresh_request id secret (VStr r))] /\
    endpoint w' = rest.
Proof.
  intros Hs Hv He Hle Hr Hne Hre Hge Happ Hnet Hbad.
  destruct (stored_object w v Hv) as [ps ->]. cbn [get_opt] in *.
  rewrite (getValidAccessToken_must_refresh w ps e re r); try assumption.
  assert (res_ok reply = false) as Hok.
  { unfold res_ok. apply andb_false_iff.
    destruct Hbad; [left; apply Z.leb_gt | right; apply Z.leb_gt]; lia. }
  erewrite bind_throw.
  2: { apply (refreshAccessToken_rejected _ ps id secret reply rest); try assumption.
       rewrite Hr. cbn. apply String.eqb_neq in Hne. now rewrite Hne. }
  rewrite Hr. eexists. split; [reflexivity|]. cbn.
  repeat split. now rewrite <- app_assoc.
Qed.

Lemma rejected_refresh_leaves_store_witness :
  let v := tokens_value (mkStoredTokens "A" "R" (sample_now - 1000) (sample_now + 1000000000) "pins:read") in
  let reply := Response 401 (NotJson "invalid_grant") in
  let w := sample_world sample_env (files_with v) [Responded reply] in
  exists w',
    getValidAccessToken w =
      (Throw (ErrorStatus "Token refresh failed" 401 (NotJson "invalid_grant")), w') /\
    fs w' = fs w /\
    trace w' = trace w ++
      [EvLog "[auth] Refreshing access token..." [];
       EvFetch (refresh_request "1234" "s3cret" (VStr "R"))] /\
    endpoint w' = [].
Proof.
  intros v reply w.
  apply (rejected_refresh_leaves_store w v (sample_now - 1000) (sample_now + 1000000000)
           "R" "1234" "s3cret" reply []);
    first [ reflexivity | discriminate
          | (split; [exists 384; split; reflexivity | reflexivity])
          | (vm_compute; discriminate) | (repeat split; discriminate)
          | (right; reflexivity) ].
Defined.

(** X4: when a refresh is due and the call to the token endpoint itself
    fails, the rejection of [fetch] is what [getValidAccessToken] raises;
    the request was attempted once and the files are as they were. *)
Theorem unreachable_endpoint_leaves_store (w : world) (v : value) (e re : Z)
    (r id secret : string) :
  static_token w = false ->
  stored w v ->
  get_opt v "expires_at" = VNum (Fin e) -> e <= now w + TOKEN_EXPIRY_BUFFER_MS ->
  get_opt v "refresh_token" = VStr r -> r <> "" ->
  get_opt v "refresh_token_expires_at" = VNum (Fin re) -> reading 1 w <= re ->
  app_configured w id secret ->
  (endpoint w = [] \/ exists rest, endpoint w = NetworkError :: rest) ->
  exists w',
    getValidAccessToken w = (Throw (Native "TypeError"), w') /\
    fs w' = fs w /\
    trace w' = trace w ++
      [EvLog "[auth] Refreshing access token..." [];
       EvFetch (refresh_request id secret (VStr r))].
Proof.
  intros Hs Hv He Hle Hr Hne Hre Hge Happ Hnet.
  destruct (stored_object w v Hv) as [ps ->]. cbn [get_opt] in *.
  rewrite (getValidAccessToken_must_refresh w ps e re r); try assumption.
  destruct (refreshAccessToken_unreachable
              (set_clock_reads (S (S (clock_reads w))) w) ps id secret)
    as (w' & Hrun & Hfs & Htr); try assumption.
  { rewrite Hr. cbn. apply String.eqb_neq in Hne. now rewrite Hne. }
  erewrite bind_throw by exact Hrun.
  exists w'. rewrite Hr in Htr. repeat split; assumption.
Qed.

Lemma unreachable_endpoint_leaves_store_witness :
  let v := tokens_value (mkStoredTokens "A" "R" (sample_now - 1000) (sample_now + 1000000000) "pins:read") in
  let w := sample_world sample_env (files_with v) [NetworkError] in
  exists w',
    getValidAccessToken w = (Throw (Native "TypeError"), w') /\
    fs w' = fs w /\
    trace w' = trace w ++
      [EvLog "[auth] Refreshing access token..." [];
       EvFetch (refresh_request "1234" "s3cret" (VStr "R"))].
Proof.
  intros v w.
  apply (unreachable_endpoint_leaves_store w v (sample_now - 1000) (sample_now + 1000000000)
           "R" "1234" "s3cret");
    first [ reflexivity | discriminate
          | (split; [exists 384; split; reflexivity | reflexivity])
          | (vm_compute; discriminate) | (repeat split; discriminate)
          | (right; eexists; reflexivity) ].
Defined.







Section ReadOnlyStore.

Lemma saveTokens_read_only (v : value) (w : world) (m : Z) (old d : text) :
  is_Some (fs w !! token_dir w) ->
  fs w !! token_path w = Some (File m old) ->
  owner_writable m = false ->
  JSON_stringify v = Some d ->
  saveTokens v w = (Throw (Native "EACCES"), w).
Proof.
  intros Hdir Hfile Hw Hd.
  unfold saveTokens. unfold bind at 1. rewrite getTokenDir_run.
  unfold bind at 1. rewrite (existsSync_run _ _ (token_dir_not_root w)).
  rewrite bool_decide_eq_true_2 by exact Hdir. cbn [negb].
  unfold bind at 1. unfold ret at 1.
  unfold bind at 1. rewrite getTokenPath_run.
  unfold bind at 1. unfold writeFileSync. rewrite Hd, Hfile, Hw.
  reflexivity.
Qed.

(** A refresh that the endpoint grants and the store refuses. *)
Lemma refreshAccessToken_read_only (w : world) (ps ds : list (string * value))
    (m st : Z) (id secret : string) (rest : list fetched) :
  static_token w = false ->
  fs w !! token_path w = Some (File m (Json (VObj ps))) ->
  owner_readable m = true -> owner_writable m = false ->
  is_Some (fs w !! token_dir w) ->
  truthy (assoc "access_token" ps) = true ->
  truthy (assoc "refresh_token" ps) = true ->
  app_configured w id secret ->
  endpoint w = Responded (Response st (Json (VObj ds))) :: rest ->
  200 <= st <= 299 ->
  exists w',
    refreshAccessToken w = (Throw (Native "EACCES"), w') /\
    fs w' = fs w /\
    trace w' = trace w ++
      [EvLog "[auth] Refreshing access token..." [];
       EvFetch (refresh_request id secret (assoc "refresh_token" ps))] /\
    endpoint w' = rest.
Proof.
  intros Hs Hf Hr Hw Hdir Hat Hrt Happ Hnet Hok.
  assert (stored w (VObj ps)) as Hst by (split; [exists m; split; assumption | exact Hat]).
  unfold refreshAccessToken.
  rewrite (bind_run _ _ _ _ _ (loadTokens_stored w _ Hs Hst)).
  cbn [get_opt]. rewrite Hrt. cbn [negb].
  erewrite bind_run by reflexivity.
  erewrite bind_run by reflexivity.
  erewrite bind_run by (apply getBasicAuthHeader_run; exact Happ).
  erewrite bind_run by (rewrite fetch_run; cbn [endpoint emit]; rewrite Hnet; reflexivity).
  assert (res_ok (Response st (Json (VObj ds))) = true) as Hres.
  { unfold res_ok. cbn. apply andb_true_iff. split; apply Z.leb_le; lia. }
  rewrite Hres. cbn [negb].
  erewrite bind_run by reflexivity.
  do 3 (erewrite bind_run by reflexivity).
  erewrite bind_run by reflexivity.
  erewrite bind_run by reflexivity.
  erewrite bind_run by reflexivity.
  erewrite bind_run by reflexivity.
  assert (forall (wx : world) (k : value -> M value),
            bind (if truthy (assoc "refresh_token_expires_at" ds)
                  then bind (js_mul (assoc "refresh_token_expires_at" ds) (Fin 1000))
                            (fun ms => ret (VNum ms))
                  else lift (Ret (assoc "refresh_token_expires_at" ps))) k wx =
            k (if truthy (assoc "refresh_token_expires_at" ds)
               then VNum (times (coerce wx) (assoc "refresh_token_expires_at" ds) (Fin 1000))
               else assoc "refresh_token_expires_at" ps) wx) as Hexp.
  { intros wx k. destruct (truthy (assoc "refresh_token_expires_at" ds)); reflexivity. }
  rewrite Hexp. clear Hexp.
  do 2 (erewrite bind_run by reflexivity).
  match goal with
  | |- context [saveTokens ?v] =>
      assert (exists d, JSON_stringify v = Some d) as [d Hd]
  end.
  { unfold JSON_stringify.
    match goal with |- context [json_of ?v] => destruct (json_of v) as [j|] eqn:Hj end;
      [eauto | discriminate]. }
  erewrite bind_throw.
  2: { apply (saveTokens_read_only _ _ m (Json (VObj ps)) d); [exact Hdir | exact Hf | exact Hw | exact Hd]. }
  eexists. split; [reflexivity|]. cbn. repeat split. now rewrite <- app_assoc.
Qed.

End ReadOnlyStore.

(** X8: when a refresh is granted (2xx) but the credential file is not
    owner-writable, [getValidAccessToken] raises the [EACCES] of
    [writeFileSync]: the reply has been consumed, yet the new tokens are
    neither stored nor returned, and the file holds the old record. *)
Theorem refresh_is_lost_on_read_only_store
    (w : world) (ps ds : list (string * value)) (m st e re : Z)
    (id secret a r : string) (rest : list fetched) :
  static_token w = false ->
  fs w !! token_path w = Some (File m (Json (VObj ps))) ->
  owner_readable m = true -> owner_writable m = false ->
  is_Some (fs w !! token_dir w) ->
  assoc "access_token" ps = VStr a -> a <> "" ->
  assoc "refresh_token" ps = VStr r -> r <> "" ->
  assoc "expires_at" ps = VNum (Fin e) -> e <= now w + TOKEN_EXPIRY_BUFFER_MS ->
  assoc "refresh_token_expires_at" ps = VNum (Fin re) -> reading 1 w <= re ->
  app_configured w id secret ->
  endpoint w = Responded (Response st (Json (VObj ds))) :: rest ->
  200 <= st <= 299 ->
  exists w',
    getValidAccessToken w = (Throw (Native "EACCES"), w') /\
    fs w' = fs w /\
    network_calls (drop (length (trace w)) (trace w')) = [refresh_request id secret (VStr r)] /\
    writes (drop (length (trace w)) (trace w')) = [] /\
    endpoint w' = rest.
Proof.
  intros Hs Hf Hr Hw Hdir Ha Hane Hrt Hrne He Hle Hre Hge Happ Hnet Hok.
  apply String.eqb_neq in Hane, Hrne.
  assert (truthy (assoc "access_token" ps) = true) as Hat
    by (rewrite Ha; cbn; now rewrite Hane).
  assert (truthy (assoc "refresh_token" ps) = true) as Hrtt
    by (rewrite Hrt; cbn; now rewrite Hrne).
  assert (stored w (VObj ps)) as Hst by (split; [exists m; split; assumption | exact Hat]).
  apply String.eqb_neq in Hrne.
  rewrite (getValidAccessToken_must_refresh w ps e re r); try assumption.
  destruct (refreshAccessToken_read_only
              (set_clock_reads (S (S (clock_reads w))) w) ps ds m st id secret rest)
    as (w' & Hrun & Hfs & Htr & Hend); try assumption.
  erewrite bind_throw by exact Hrun.
  exists w'. cbn [trace fs set_clock_reads] in Htr, Hfs.
  rewrite Htr, drop_app_length, Hrt. repeat split; assumption.
Qed.

Lemma refresh_is_lost_on_read_only_store_witness :
  let ps := [("access_token", VStr "A"); ("refresh_token", VStr "R");
             ("expires_at", VNum (Fin (sample_now - 1000)));
             ("refresh_token_expires_at", VNum (Fin (sample_now + 1000000000)));
             ("scope", VStr "pins:read")] in
  let files : gmap path node :=
    <[sample_path := File 256 (Json (VObj ps))]> (<[sample_dir := Dir 493]> bare_files) in
  let ds := [("access_token", VStr "B"); ("expires_in", VNum (Fin 3600))] in
  let w := sample_world sample_env files [Responded (Response 200 (Json (VObj ds)))] in
  exists w',
    getValidAccessToken w = (Throw (Native "EACCES"), w') /\
    fs w' = fs w /\
    network_calls (drop (length (trace w)) (trace w')) = [refresh_request "1234" "s3cret" (VStr "R")] /\
    writes (drop (length (trace w)) (trace w')) = [] /\
    endpoint w' = [].
Proof.
  intros ps files ds w.
  apply (refresh_is_lost_on_read_only_store w ps ds 256 200 (sample_now - 1000)
           (sample_now + 1000000000) "1234" "s3cret" "A" "R" []);
    first [ reflexivity | discriminate | (eexists; reflexivity)
          | (vm_compute; discriminate) | (repeat split; discriminate) | lia ].
Defined.

(** ** What one call may do *)

Section StoreEvents.

Variable P : event -> Prop.
Hypothesis P_log : forall msg args, P (EvLog msg args).
Hypothesis P_mkdir : forall p mode, P (EvMkdir p mode).
Hypothesis P_write : forall p d, P (EvWriteFile p d).

Lemma emits_os_homedir : emits P os_homedir.
Proof. now apply emits_silent. Qed.

Lemma emits_getTokenPath : emits P getTokenPath.
Proof.
  unfold getTokenPath, getTokenDir.
  repeat first [ apply emits_bind; [|intros ?] | apply emits_os_homedir | apply emits_ret ].
Qed.

Lemma emits_loadTokens_any : emits P loadTokens.
Proof.
  unfold loadTokens.
  apply emits_bind; [apply emits_process_env | intros envToken].
  apply emits_if.
  - apply emits_bind; [apply emits_Date_now | intros t; apply emits_ret].
  - apply emits_try_catch; [|intros e; apply emits_ret].
    apply emits_bind; [apply emits_getTokenPath | intros p].
    apply emits_bind; [apply emits_readFileSync | intros data].
    apply emits_bind; [apply emits_lift | intros parsed].
    apply emits_bind; [apply emits_lift | intros token].
    apply emits_if; apply emits_ret.
Qed.

Lemma emits_saveTokens_any (tokens : value) : emits P (saveTokens tokens).
Proof.
  unfold saveTokens, getTokenDir.
  apply emits_bind; [|intros dir].
  { apply emits_bind; [apply emits_os_homedir | intros home; apply emits_ret]. }
  apply emits_bind; [apply emits_existsSync | intros there].
  apply emits_bind; [|intros _].
  { apply emits_if; [apply emits_mkdirSync_recursive; exact P_mkdir | apply emits_ret]. }
  apply emits_bind; [apply emits_getTokenPath | intros p].
  apply emits_bind; [apply emits_writeFileSync; intros d; apply P_write | intros _].
  apply emits_bind; [apply emits_getTokenPath | intros shown].
  apply emits_console_error. apply P_log.
Qed.

Lemma emits_getBasicAuthHeader_any : emits P getBasicAuthHeader.
Proof.
  unfold getBasicAuthHeader, getAppId, getAppSecret.
  repeat first [ apply emits_bind; [|intros ?] | apply emits_if
               | apply emits_process_env | apply emits_ret | apply emits_throw ].
Qed.

End StoreEvents.

Section Calls.

Lemma calls_of_emits {A : Type} (c : M A) (n : nat) :
  emits not_fetch c -> calls_at_most n c.
Proof.
  intros Hc w. destruct (Hc w) as (evs & Htr & Hall).
  exists evs. split; [exact Htr|].
  assert (network_calls evs = []) as ->; [|cbn; lia].
  clear Htr. induction Hall as [|e evs He _ IH]; [reflexivity|].
  unfold network_calls in *. cbn. destruct e; try (exact IH). destruct He.
Qed.

Lemma calls_bind_quiet {A B : Type} (c : M A) (k : A -> M B) (n : nat) :
  emits not_fetch c -> (forall a, calls_at_most n (k a)) -> calls_at_most n (bind c k).
Proof.
  intros Hc Hk w. unfold bind.
  destruct (calls_of_emits c 0 Hc w) as (evs & Htr & Hlen).
  destruct (c w) as [[a|e] w1]; cbn [snd] in *.
  - destruct (Hk a w1) as (evs' & Htr' & Hlen').
    exists (evs ++ evs'). rewrite Htr', Htr, app_assoc. split; [reflexivity|].
    unfold network_calls in *. rewrite omap_app, length_app. lia.
  - exists evs. split; [exact Htr | lia].
Qed.

Lemma calls_bind_then_quiet {A B : Type} (c : M A) (k : A -> M B) (n : nat) :
  calls_at_most n c -> (forall a, emits not_fetch (k a)) -> calls_at_most n (bind c k).
Proof.
  intros Hc Hk w. unfold bind.
  destruct (Hc w) as (evs & Htr & Hlen).
  destruct (c w) as [[a|e] w1]; cbn [snd] in *.
  - destruct (calls_of_emits (k a) 0 (Hk a) w1) as (evs' & Htr' & Hlen').
    exists (evs ++ evs'). rewrite Htr', Htr, app_assoc. split; [reflexivity|].
    unfold network_calls in *. rewrite omap_app, length_app. lia.
  - exists evs. split; [exact Htr | lia].
Qed.

Lemma calls_if {A : Type} (b : bool) (c1 c2 : M A) (n : nat) :
  calls_at_most n c1 -> calls_at_most n c2 -> calls_at_most n (if b then c1 else c2).
Proof. now destruct b. Qed.

Lemma calls_fetch (req : request) : calls_at_most 1 (fetch req).
Proof.
  intros w. exists [EvFetch req]. split; [|cbn; lia].
  rewrite fetch_run. destruct (endpoint w) as [|[|r] rest]; reflexivity.
Qed.

Lemma calls_refreshAccessToken : calls_at_most 1 refreshAccessToken.
Proof.
  unfold refreshAccessToken.
  apply calls_bind_quiet;
    [apply emits_loadTokens_any | intros tokens].
  apply calls_if; [apply calls_of_emits, emits_throw|].
  apply calls_bind_quiet; [apply emits_console_error; exact I | intros _].
  apply calls_bind_quiet; [apply emits_lift | intros sent].
  apply calls_bind_quiet; [apply emits_getBasicAuthHeader_any | intros auth].
  apply calls_bind_then_quiet; [apply calls_fetch | intros response].
  apply emits_if.
  - unfold res_text. apply emits_bind; [apply emits_ret | intros t; apply emits_throw].
  - unfold res_json.
    repeat first
      [ apply emits_saveTokens_any; intros; exact I
      | apply emits_bind; [|intros ?]
      | apply emits_if
      | apply emits_lift | apply emits_Date_now | apply emits_js_mul | apply emits_ret
      | apply emits_console_error; exact I ].
Qed.

Lemma emits_js_cmp (v : value) (n : num) :
  emits not_fetch (js_gt v n) /\ emits not_fetch (js_lt v n).
Proof. split; now apply emits_silent. Qed.

Lemma calls_getValidAccessToken : calls_at_most 1 getValidAccessToken.
Proof.
  unfold getValidAccessToken.
  apply calls_bind_quiet; [apply emits_process_env | intros direct].
  apply calls_if; [apply calls_of_emits, emits_ret|].
  apply calls_bind_quiet; [apply emits_loadTokens_any | intros tokens].
  apply calls_if; [apply calls_of_emits, emits_throw|].
  apply calls_bind_quiet; [apply emits_lift | intros expiry].
  apply calls_bind_quiet; [apply emits_Date_now | intros t].
  apply calls_bind_quiet; [apply emits_js_cmp | intros valid].
  apply calls_if; [apply calls_of_emits, emits_lift|].
  apply calls_bind_quiet; [apply emits_lift | intros refresh].
  apply calls_if; [apply calls_of_emits, emits_throw|].
  apply calls_bind_quiet; [apply emits_lift | intros refresh_expiry].
  apply calls_bind_quiet; [apply emits_Date_now | intros t'].
  apply calls_bind_quiet; [apply emits_js_cmp | intros expired].
  apply calls_if; [apply calls_of_emits, emits_throw|].
  apply calls_bind_then_quiet; [apply calls_refreshAccessToken | intros newTokens].
  apply emits_lift.
Qed.

End Calls.

Section AnyEvents.

Variable P : event -> Prop.
Hypothesis P_log : forall msg args, P (EvLog msg args).
Hypothesis P_mkdir : forall p mode, P (EvMkdir p mode).
Hypothesis P_write : forall p d, P (EvWriteFile p d).
Hypothesis P_fetch : forall req, P (EvFetch req).

Lemma emits_js_gt (v : value) (n : num) : emits P (js_gt v n).
Proof. now apply emits_silent. Qed.

Lemma emits_js_lt (v : value) (n : num) : emits P (js_lt v n).
Proof. now apply emits_silent. Qed.

Lemma emits_refreshAccessToken_any : emits P refreshAccessToken.
Proof.
  unfold refreshAccessToken, res_text, res_json.
  repeat first
    [ apply emits_saveTokens_any; assumption
    | apply emits_loadTokens_any; assumption
    | apply emits_getBasicAuthHeader_any
    | apply emits_fetch; apply P_fetch
    | apply emits_console_error; apply P_log
    | apply emits_bind; [|intros ?]
    | apply emits_if
    | apply emits_lift | apply emits_Date_now | apply emits_js_mul
    | apply emits_ret | apply emits_throw ].
Qed.

Lemma emits_getValidAccessToken_any : emits P getValidAccessToken.
Proof.
  unfold getValidAccessToken.
  repeat first
    [ apply emits_refreshAccessToken_any
    | apply emits_loadTokens_any; assumption
    | apply emits_process_env
    | apply emits_js_gt | apply emits_js_lt
    | apply emits_bind; [|intros ?]
    | apply emits_if
    | apply emits_lift | apply emits_Date_now
    | apply emits_ret | apply emits_throw ].
Qed.

End AnyEvents.

Section Frame.



Lemma closes_app (evs evs' : list event) : closes (evs ++ evs') = closes evs ++ closes evs'.
Proof. apply omap_app. Qed.

Lemma network_calls_app (evs evs' : list event) :
  network_calls (evs ++ evs') = network_calls evs ++ network_calls evs'.
Proof. apply omap_app. Qed.

Lemma no_closes (evs : list event) : Forall not_handshake evs -> closes evs = [].
Proof.
  induction 1 as [|e evs He _ IH]; [reflexivity|].
  unfold closes in *. destruct e; cbn; try exact IH; destruct He.
Qed.



End Frame.

(** X9: in every world, one call of [getValidAccessToken] makes at most
    one network call. *)
Theorem at_most_one_network_call (w : world) :
  (length (network_calls (events_of getValidAccessToken w)) <= 1)%nat.
Proof.
  destruct (calls_getValidAccessToken w) as (evs & Htr & Hlen).
  unfold events_of. now rewrite Htr, drop_app_length.
Qed.

(** X10: in every world, [getValidAccessToken] only logs, fetches and
    writes to the store: it arms no timer, opens no listener, answers no
    request, launches no browser and closes no port. *)
Theorem serving_never_starts_a_handshake (w : world) :
  Forall not_handshake (events_of getValidAccessToken w) /\
  closes (events_of getValidAccessToken w) = [].
Proof.
  destruct (emits_getValidAccessToken_any not_handshake
              (fun _ _ => I) (fun _ _ => I) (fun _ _ => I) (fun _ => I) w)
    as (evs & Htr & Hall).
  unfold events_of. rewrite Htr, drop_app_length.
  split; [exact Hall | now apply no_closes].
Qed.

(** ** When a save succeeds *)

Section SaveSucceeds.







End SaveSucceeds.



(** ** The callback listener *)

Section Listener.

Lemma port_released (ps : gset Z) : OAUTH_CALLBACK_PORT ∉ ps ∖ {[OAUTH_CALLBACK_PORT]}.
Proof. intros Hin. apply elem_of_difference in Hin as [_ Hout]. apply Hout. now apply elem_of_singleton. Qed.

Lemma cleanup_run (w : world) :
  cleanup w =
    (Ret tt,
     emit (EvClose OAUTH_CALLBACK_PORT)
          (set_server (ports w ∖ {[OAUTH_CALLBACK_PORT]}) false (emit EvClearTimeout w))).
Proof. reflexivity. Qed.

(** What the handler does with one request. *)
Lemma on_request_run (state : string) (req : callback) (w : world) :
  on_request state req w =
    if negb (String.eqb (cb_pathname req) "/callback")
    then (Ret None, emit (EvRespond 404) w)
    else
      let status := if bool_decide (cb_state req = Some state) && is_set (cb_code req)
                    then 200 else 400 in
      (Ret (Some (verdict state (Some req))),
       emit (EvClose OAUTH_CALLBACK_PORT)
            (set_server (ports w ∖ {[OAUTH_CALLBACK_PORT]}) false
                        (emit EvClearTimeout (emit (EvRespond status) w)))).
Proof.
  unfold on_request, verdict.
  destruct (String.eqb (cb_pathname req) "/callback"); cbn [negb]; [|reflexivity].
  destruct (bool_decide (cb_state req = Some state)); cbn [negb andb]; [|reflexivity].
  destruct (is_set (cb_code req)); reflexivity.
Qed.

Lemma serve_spec (state : string) (reqs : list callback) :
  forall w : world,
    inbox w = reqs ->
    exists evs,
      let w' := snd (serve state reqs w) in
      fst (serve state reqs w) = verdict state (first_callback reqs) /\
      trace w' = trace w ++ evs /\
      closes evs = [OAUTH_CALLBACK_PORT] /\
      network_calls evs = [] /\ writes evs = [] /\
      listening w' = false /\
      (OAUTH_CALLBACK_PORT ∉ ports w') /\
      inbox w' = after_callback reqs /\
      same_setting w w'.
Proof.
  induction reqs as [|req rest IH]; intros w Hin.
  - eexists. cbn [serve]. erewrite bind_run by apply cleanup_run.
    cbn. split; [reflexivity|]. split; [rewrite <- app_assoc; reflexivity|].
    repeat split; first [assumption | apply port_released].
  - cbn [serve].
    erewrite bind_run by (unfold next_request; rewrite Hin; reflexivity).
    cbn [first_callback after_callback].
    destruct (String.eqb (cb_pathname req) "/callback") eqn:Hpath.
    + erewrite bind_run by (rewrite on_request_run, Hpath; reflexivity).
      destruct (verdict state (Some req)) as [code|e]; eexists; cbn;
        (split; [reflexivity|]); (split; [rewrite <- !app_assoc; reflexivity|]);
        repeat split; first [assumption | apply port_released].
    + erewrite bind_run by (rewrite on_request_run, Hpath; reflexivity).
      destruct (IH (emit (EvRespond 404) (set_inbox rest w)) eq_refl)
        as (evs & Hres & Htr & Hcl & Hnet & Hwr & Hlis & Hport & Hinb & Hsame).
      exists (EvRespond 404 :: evs). cbv zeta in *.
      split; [exact Hres|]. split; [rewrite Htr; cbn; now rewrite <- app_assoc|].
      repeat split; try assumption; apply Hsame.
Qed.


(** [startOAuthFlow] up to the launch of the browser, when the application
    is configured. *)
Lemma startOAuthFlow_launches (w : world) :
  is_set (env w !! "PINTEREST_APP_ID") = true ->
  listening w = false ->
  let state := uuids w (uuid_reads w) in
  let u := authorization_url (default "" (env w !! "PINTEREST_APP_ID")) state in
  let free := negb (bool_decide (OAUTH_CALLBACK_PORT ∈ ports w)) in
  exists w4,
    startOAuthFlow w =
      bind (open_browser u after_listen)
           (fun _ =>
              bind (console_error "[auth] Browser opened. Waiting for authorization..." [])
                   (fun _ => bind (await_code state) finish_flow)) w4 /\
    listening w4 = free /\
    ports w4 = (if free then {[OAUTH_CALLBACK_PORT]} ∪ ports w else ports w) /\
    browser w4 = browser w /\
    inbox w4 = inbox w /\
    same_setting w w4 /\
    trace w4 = trace w ++
      [EvLog "[auth] Starting OAuth flow..." [];
       EvLog "[auth] Authorization URL:" [ArgUrl u];
       EvSetTimeout OAUTH_TIMEOUT_MS;
       EvListen OAUTH_CALLBACK_PORT free].
Proof.
  intros Hid Hidle state u free.
  assert (exists w4,
             waitForAuthorizationCode state
               (emit (EvLog "[auth] Authorization URL:" [ArgUrl u])
                  (emit (EvLog "[auth] Starting OAuth flow..." [])
                     (set_uuid_reads (S (uuid_reads w)) w))) = (Ret tt, w4) /\
             listening w4 = free /\
             ports w4 = (if free then {[OAUTH_CALLBACK_PORT]} ∪ ports w else ports w) /\
             browser w4 = browser w /\ inbox w4 = inbox w /\ same_setting w w4 /\
             trace w4 = trace w ++
               [EvLog "[auth] Starting OAuth flow..." [];
                EvLog "[auth] Authorization URL:" [ArgUrl u];
                EvSetTimeout OAUTH_TIMEOUT_MS;
                EvListen OAUTH_CALLBACK_PORT free]) as (w4 & Hwait & Hfacts).
  { unfold waitForAuthorizationCode. erewrite bind_run by reflexivity.
    unfold server_listen, free. cbn [ports emit set_uuid_reads].
    case_bool_decide as Hbusy; cbn [negb]; eexists; (split; [reflexivity|]); cbn;
      repeat split; try (rewrite <- !app_assoc; reflexivity).
    exact Hidle. }
  exists w4. split; [|exact Hfacts].
  unfold startOAuthFlow.
  erewrite bind_run by reflexivity.
  erewrite bind_run by (rewrite getAppId_run; cbn [env set_uuid_reads]; rewrite Hid; reflexivity).
  erewrite bind_run by reflexivity.
  erewrite bind_run by reflexivity.
  erewrite bind_run by exact Hwait.
  reflexivity.
Qed.

End Listener.

Section FlowRuns.

Lemma open_browser_run (u : url) (w : world) :
  open_browser u after_listen w =
    (if browser w then Ret tt else Throw (Native "spawn"),
     emit (if listening w
           then EvLog "[auth] OAuth callback server listening on port 3333" []
           else EvClearTimeout)
          (emit (EvOpen u) w)).
Proof.
  unfold open_browser. erewrite bind_run by reflexivity.
  unfold bind, after_listen, launched, console_error, tell. cbn [listening emit browser].
  destruct (listening w); cbn [browser emit]; destruct (browser w); reflexivity.
Qed.

(** [await codePromise] on a listener that holds its port. *)
Lemma await_code_spec (state : string) (w : world) :
  listening w = true ->
  exists evs,
    let w' := snd (await_code state w) in
    fst (await_code state w) = verdict state (first_callback (inbox w)) /\
    trace w' = trace w ++ evs /\
    closes evs = [OAUTH_CALLBACK_PORT] /\
    network_calls evs = [] /\ writes evs = [] /\
    listening w' = false /\
    (OAUTH_CALLBACK_PORT ∉ ports w') /\
    inbox w' = after_callback (inbox w) /\
    same_setting w w'.
Proof.
  intros Hl. unfold await_code. rewrite Hl. apply serve_spec. reflexivity.
Qed.

End FlowRuns.

Section Answers.


Lemma first_callback_in (reqs : list callback) (req : callback) :
  first_callback reqs = Some req -> req ∈ reqs.
Proof.
  induction reqs as [|r rest IH]; [discriminate|]. cbn.
  destruct (String.eqb (cb_pathname r) "/callback").
  - intros [= ->]. apply elem_of_cons. now left.
  - intros H. apply elem_of_cons. right. exact (IH H).
Qed.

End Answers.







(** X15: in every world, a code returned by the wait was delivered by a
    request on [/callback] that carried the expected state, and it is not
    empty. *)
Theorem code_comes_with_expected_state (state code : string) (w : world) :
  fst (await_code state w) = Ret code ->
  exists req,
    req ∈ inbox w /\
    cb_pathname req = "/callback"%string /\
    cb_state req = Some state /\
    cb_code req = Some code /\ code <> ""%string.
Proof.
  intros Hres.
  destruct (listening w) eqn:Hl.
  - destruct (await_code_spec state w Hl) as (evs & H). cbv zeta in H.
    destruct H as (Hv & _). rewrite Hv in Hres. unfold verdict in Hres.
    destruct (first_callback (inbox w)) as [req|] eqn:Hfirst; [|discriminate].
    exists req. split; [exact (first_callback_in _ _ Hfirst)|].
    split.
    { clear Hres Hv. revert Hfirst. induction (inbox w) as [|r rest IH]; [discriminate|].
      cbn. destruct (String.eqb (cb_pathname r) "/callback") eqn:Hp.
      - intros [= <-]. now apply String.eqb_eq.
      - exact IH. }
    case_bool_decide as Hstate; cbn [negb] in Hres; [|discriminate].
    destruct (cb_code req) as [c|] eqn:Hc; cbn in Hres; [|discriminate].
    destruct (String.eqb c "") eqn:Hempty; cbn in Hres; [discriminate|].
    inversion Hres; subst c. apply String.eqb_neq in Hempty.
    repeat split; assumption.
  - unfold await_code in Hres. rewrite Hl in Hres. discriminate.
Qed.

Lemma code_comes_with_expected_state_witness :
  let genuine := Callback "/callback" (Some "c0de") (Some sample_state) in
  let w := World sample_env sample_home 18 bare_files (ticking sample_now) 0 (fun _ => NaN)
             (fun _ => sample_state) 1 [] {[OAUTH_CALLBACK_PORT]} true
             [Callback "/favicon.ico" None None; genuine] true [] in
  exists req,
    req ∈ inbox w /\
    cb_pathname req = "/callback"%string /\
    cb_state req = Some sample_state /\
    cb_code req = Some "c0de"%string /\ "c0de"%string <> ""%string.
Proof.
  intros genuine w. apply (code_comes_with_expected_state sample_state "c0de" w). reflexivity.
Defined.

(** ** The handshake from end to end *)

Section Exchange.


Lemma exchangeCodeForTokens_rejected (w : world) (code id secret : string)
    (reply : response) (rest : list fetched) :
  app_configured w id secret ->
  endpoint w = Responded reply :: rest ->
  res_ok reply = false ->
  exchangeCodeForTokens code w =
    (Throw (ErrorStatus "Token exchange failed" (res_status reply) (res_body reply)),
     set_endpoint rest (emit (EvFetch (exchange_request id secret code)) w)).
Proof.
  intros Happ Hnet Hok. unfold exchangeCodeForTokens.
  erewrite bind_run by (apply getBasicAuthHeader_run; exact Happ).
  erewrite bind_run by (rewrite fetch_run, Hnet; reflexivity).
  rewrite Hok. reflexivity.
Qed.

End Exchange.

Section FlowCases.

(** The flow when the browser has been launched and the listener holds
    its port: what is left is the wait and [finish_flow]. *)
Lemma startOAuthFlow_waits (w : world) :
  is_set (env w !! "PINTEREST_APP_ID") = true ->
  listening w = false ->
  OAUTH_CALLBACK_PORT ∉ ports w ->
  browser w = true ->
  let state := uuids w (uuid_reads w) in
  let u := authorization_url (default "" (env w !! "PINTEREST_APP_ID")) state in
  exists w5,
    startOAuthFlow w = bind (await_code state) finish_flow w5 /\
    listening w5 = true /\
    inbox w5 = inbox w /\
    same_setting w w5 /\
    trace w5 = trace w ++
      [EvLog "[auth] Starting OAuth flow..." [];
       EvLog "[auth] Authorization URL:" [ArgUrl u];
       EvSetTimeout OAUTH_TIMEOUT_MS;
       EvListen OAUTH_CALLBACK_PORT true;
       EvOpen u;
       EvLog "[auth] OAuth callback server listening on port 3333" [];
       EvLog "[auth] Browser opened. Waiting for authorization..." []].
Proof.
  intros Hid Hidle Hfree Hbrowser state u.
  destruct (startOAuthFlow_launches w Hid Hidle)
    as (w4 & Hrun & Hlis & Hports & Hbr & Hinb & Hsame & Htr).
  cbv zeta in *. rewrite bool_decide_eq_false_2 in * by exact Hfree. cbn [negb] in *.
  eexists. split.
  - rewrite Hrun.
    erewrite bind_run by (rewrite open_browser_run, Hbr, Hbrowser, Hlis; reflexivity).
    erewrite bind_run by reflexivity. reflexivity.
  - cbn. rewrite Htr, <- !app_assoc. repeat split; try assumption; apply Hsame.
Qed.

End FlowCases.

(** X16: without [PINTEREST_APP_ID], [startOAuthFlow] fails before
    anything is observable: no log line, no timer, no listener, no
    browser. *)
Theorem handshake_needs_app_id (w : world) :
  is_set (env w !! "PINTEREST_APP_ID") = false ->
  fst (startOAuthFlow w) = Throw (Error "PINTEREST_APP_ID environment variable is not set.") /\
  events_of startOAuthFlow w = [] /\
  listening (snd (startOAuthFlow w)) = listening w /\
  ports (snd (startOAuthFlow w)) = ports w.
Proof.
  intros Hid.
  assert (startOAuthFlow w =
            (Throw (Error "PINTEREST_APP_ID environment variable is not set."),
             set_uuid_reads (S (uuid_reads w)) w)) as Hrun.
  { unfold startOAuthFlow. erewrite bind_run by reflexivity.
    erewrite bind_throw; [reflexivity|].
    rewrite getAppId_run. cbn [env set_uuid_reads]. rewrite Hid. reflexivity. }
  unfold events_of. rewrite Hrun. cbn. rewrite drop_all. repeat split.
Qed.

Lemma handshake_needs_app_id_witness :
  let w := sample_world ∅ bare_files [] in
  fst (startOAuthFlow w) = Throw (Error "PINTEREST_APP_ID environment variable is not set.") /\
  events_of startOAuthFlow w = [] /\
  listening (snd (startOAuthFlow w)) = listening w /\
  ports (snd (startOAuthFlow w)) = ports w.
Proof.
  intros w. apply (handshake_needs_app_id w). reflexivity.
Defined.

(** X17: when the launch of the browser fails, [startOAuthFlow] rejects
    with that failure and without calling [cleanup]: at that moment the
    callback port is still bound and nothing has been closed. *)
Theorem failed_launch_leaves_listener_bound (w : world) :
  is_set (env w !! "PINTEREST_APP_ID") = true ->
  listening w = false ->
  OAUTH_CALLBACK_PORT ∉ ports w ->
  browser w = false ->
  fst (startOAuthFlow w) = Throw (Native "spawn") /\
  listening (snd (startOAuthFlow w)) = true /\
  OAUTH_CALLBACK_PORT ∈ ports (snd (startOAuthFlow w)) /\
  closes (events_of startOAuthFlow w) = [].
Proof.
  intros Hid Hidle Hfree Hbrowser.
  destruct (startOAuthFlow_launches w Hid Hidle)
    as (w4 & Hrun & Hlis & Hports & Hbr & Hinb & Hsame & Htr).
  cbv zeta in *. rewrite bool_decide_eq_false_2 in * by exact Hfree. cbn [negb] in *.
  unfold events_of. rewrite Hrun.
  erewrite bind_throw by (rewrite open_browser_run, Hbr, Hbrowser, Hlis; reflexivity).
  cbn [fst snd listening ports trace emit].
  rewrite Hlis, Hports, Htr, <- !app_assoc, drop_app_length.
  repeat split. apply elem_of_union. left. now apply elem_of_singleton.
Qed.

Lemma failed_launch_leaves_listener_bound_witness :
  let w := World sample_env sample_home 18 bare_files (ticking sample_now) 0 (fun _ => NaN)
             (fun _ => "6f1c2d3e-0000-4000-8000-000000000000") 0 [] ∅ false [] false [] in
  fst (startOAuthFlow w) = Throw (Native "spawn") /\
  listening (snd (startOAuthFlow w)) = true /\
  OAUTH_CALLBACK_PORT ∈ ports (snd (startOAuthFlow w)) /\
  closes (events_of startOAuthFlow w) = [].
Proof.
  intros w. apply (failed_launch_leaves_listener_bound w).
  - reflexivity.
  - reflexivity.
  - apply not_elem_of_empty.
  - reflexivity.
Defined.



Section FlowEnds.

Lemma await_code_returns (state : string) (w : world) (req : callback) (code : string) :
  listening w = true ->
  first_callback (inbox w) = Some req ->
  cb_state req = Some state ->
  cb_code req = Some code -> code <> "" ->
  exists w6 evs,
    await_code state w = (Ret code, w6) /\
    trace w6 = trace w ++ evs /\
    closes evs = [OAUTH_CALLBACK_PORT] /\
    network_calls evs = [] /\ writes evs = [] /\
    listening w6 = false /\
    (OAUTH_CALLBACK_PORT ∉ ports w6) /\
    same_setting w w6.
Proof.
  intros Hl Hfirst Hstate Hcode Hne.
  destruct (await_code_spec state w Hl) as (evs & H). cbv zeta in H.
  destruct H as (Hres & Htr & Hcl & Hnet & Hwr & Hlis & Hport & _ & Hsame).
  rewrite Hfirst in Hres. unfold verdict in Hres.
  rewrite Hstate, Hcode in Hres. rewrite bool_decide_eq_true_2 in Hres by reflexivity.
  cbn in Hres. apply String.eqb_neq in Hne. rewrite Hne in Hres. cbn in Hres.
  destruct (await_code state w) as [o w6]. cbn [fst snd] in *. subst o.
  exists w6, evs. split; [reflexivity|]. repeat split; try assumption; apply Hsame.
Qed.

End FlowEnds.

(** X19: when the wait for the code ends in an error (state mismatch,
    missing code, timeout), [startOAuthFlow] raises that error, makes no
    network call, writes nothing, and the listener has been closed. *)
Theorem handshake_rejects_bad_callback (w : world) (e : exn) :
  is_set (env w !! "PINTEREST_APP_ID") = true ->
  listening w = false ->
  OAUTH_CALLBACK_PORT ∉ ports w ->
  browser w = true ->
  verdict (uuids w (uuid_reads w)) (first_callback (inbox w)) = Throw e ->
  fst (startOAuthFlow w) = Throw e /\
  network_calls (events_of startOAuthFlow w) = [] /\
  writes (events_of startOAuthFlow w) = [] /\
  fs (snd (startOAuthFlow w)) = fs w /\
  closes (events_of startOAuthFlow w) = [OAUTH_CALLBACK_PORT] /\
  listening (snd (startOAuthFlow w)) = false /\
  OAUTH_CALLBACK_PORT ∉ ports (snd (startOAuthFlow w)).
Proof.
  intros Hid Hidle Hfree Hbrowser Hverdict.
  destruct (startOAuthFlow_waits w Hid Hidle Hfree Hbrowser)
    as (w5 & Hrun & Hlis5 & Hinb5 & Hsame5 & Htr5).
  cbv zeta in *.
  destruct (await_code_spec (uuids w (uuid_reads w)) w5 Hlis5) as (evs & H).
  cbv zeta in H.
  destruct H as (Hres & Htr & Hcl & Hnet & Hwr & Hlis & Hport & _ & Hsame).
  rewrite Hinb5, Hverdict in Hres.
  destruct (await_code (uuids w (uuid_reads w)) w5) as [o w6] eqn:Hawait.
  cbn [fst snd] in *. subst o.
  unfold events_of. rewrite Hrun. erewrite bind_throw by exact Hawait.
  cbn [fst snd]. rewrite Htr, Htr5, <- !app_assoc, drop_app_length.
  unfold writes in *. rewrite !network_calls_app, !closes_app, !omap_app, Hnet, Hcl, Hwr.
  destruct Hsame as (_ & _ & _ & Hfs6 & _). destruct Hsame5 as (_ & _ & _ & Hfs5 & _).
  rewrite Hfs6, Hfs5. repeat split; assumption.
Qed.

Lemma handshake_rejects_bad_callback_witness :
  let w := handshake_world [Callback "/callback" (Some "c0de") (Some "forged")] [] in
  fst (startOAuthFlow w) = Throw (Error "OAuth state mismatch.") /\
  network_calls (events_of startOAuthFlow w) = [] /\
  writes (events_of startOAuthFlow w) = [] /\
  fs (snd (startOAuthFlow w)) = fs w /\
  closes (events_of startOAuthFlow w) = [OAUTH_CALLBACK_PORT] /\
  listening (snd (startOAuthFlow w)) = false /\
  OAUTH_CALLBACK_PORT ∉ ports (snd (startOAuthFlow w)).
Proof.
  intros w. apply (handshake_rejects_bad_callback w).
  - reflexivity.
  - reflexivity.
  - apply not_elem_of_empty.
  - reflexivity.
  - reflexivity.
Defined.

(** X20: when the token endpoint answers the exchange outside 200..299,
    [startOAuthFlow] raises "Token exchange failed" with the status and the
    body of the reply; nothing is written and the files are as they
    were. *)
Theorem handshake_exchange_rejected
    (w : world) (req : callback) (code id secret : string)
    (reply : response) (rest : list fetched) :
  app_configured w id secret ->
  listening w = false ->
  OAUTH_CALLBACK_PORT ∉ ports w ->
  browser w = true ->
  first_callback (inbox w) = Some req ->
  cb_state req = Some (uuids w (uuid_reads w)) ->
  cb_code req = Some code -> code <> "" ->
  endpoint w = Responded reply :: rest ->
  res_ok reply = false ->
  fst (startOAuthFlow w) =
    Throw (ErrorStatus "Token exchange failed" (res_status reply) (res_body reply)) /\
  network_calls (events_of startOAuthFlow w) = [exchange_request id secret code] /\
  writes (events_of startOAuthFlow w) = [] /\
  fs (snd (startOAuthFlow w)) = fs w /\
  listening (snd (startOAuthFlow w)) = false.
Proof.
  intros Happ Hidle Hfree Hbrowser Hfirst Hstate Hcode Hne Hnet Hok.
  assert (is_set (env w !! "PINTEREST_APP_ID") = true) as Hid.
  { destruct Happ as (Hid & Hidne & _). rewrite Hid. cbn.
    apply String.eqb_neq in Hidne. now rewrite Hidne. }
  destruct (startOAuthFlow_waits w Hid Hidle Hfree Hbrowser)
    as (w5 & Hrun & Hlis5 & Hinb5 & Hsame5 & Htr5).
  cbv zeta in *.
  rewrite <- Hinb5 in Hfirst.
  destruct (await_code_returns _ w5 req code Hlis5 Hfirst Hstate Hcode Hne)
    as (w6 & evs6 & Hawait & Htr6 & Hcl6 & Hnet6 & Hwr6 & Hlis6 & Hport6 & Hsame6).
  destruct Hsame5 as (Henv5 & Hhome5 & Hmask5 & Hfs5 & Hend5 & Hclk5 & Hrd5 & Hco5).
  destruct Hsame6 as (Henv6 & Hhome6 & Hmask6 & Hfs6 & Hend6 & Hclk6 & Hrd6 & Hco6).
  unfold events_of.
  rewrite Hrun. erewrite bind_run by exact Hawait.
  unfold finish_flow. erewrite bind_run by reflexivity.
  erewrite bind_throw.
  2: { apply (exchangeCodeForTokens_rejected _ code id secret reply rest).
       - unfold app_configured. cbn [env emit]. rewrite Henv6, Henv5. exact Happ.
       - cbn [endpoint emit]. rewrite Hend6, Hend5. exact Hnet.
       - exact Hok. }
  cbn [fst snd fs trace listening set_endpoint emit].
  rewrite Htr6, Htr5, <- !app_assoc, drop_app_length.
  unfold writes in *. rewrite !network_calls_app, !omap_app, Hnet6, Hwr6, Hfs6, Hfs5.
  repeat split; assumption.
Qed.

Lemma handshake_exchange_rejected_witness :
  let req := Callback "/callback" (Some "c0de") (Some sample_state) in
  let reply := Response 400 (NotJson "invalid_grant") in
  let w := handshake_world [req] [Responded reply] in
  fst (startOAuthFlow w) =
    Throw (ErrorStatus "Token exchange failed" 400 (NotJson "invalid_grant")) /\
  network_calls (events_of startOAuthFlow w) = [exchange_request "1234" "s3cret" "c0de"] /\
  writes (events_of startOAuthFlow w) = [] /\
  fs (snd (startOAuthFlow w)) = fs w /\
  listening (snd (startOAuthFlow w)) = false.
Proof.
  intros req reply w.
  apply (handshake_exchange_rejected w req "c0de" "1234" "s3cret" reply []).
  - repeat split; discriminate.
  - reflexivity.
  - apply not_elem_of_empty.
  - reflexivity.
  - reflexivity.
  - reflexivity.
  - reflexivity.
  - discriminate.
  - reflexivity.
  - reflexivity.
Defined.

Section FlowSucceeds.


End FlowSucceeds.





(** ** The status report *)

Section StatusRuns.

Variable parse : value -> num.

Lemma getAuthStatus_stored (w : world) (ps : list (string * value)) :
  static_token w = false ->
  stored w (VObj ps) ->
  getAuthStatus parse w =
    (let w1 := set_clock_reads (S (clock_reads w)) w in
     match toISOString (new_Date parse (assoc "expires_at" ps)) with
     | Throw e => (Throw e, w1)
     | Ret expires =>
         match toISOString (new_Date parse (assoc "refresh_token_expires_at" ps)) with
         | Throw e => (Throw e, w1)
         | Ret refresh_expires =>
             (Ret (AuthStatus true
                     (greater (coerce w) (assoc "expires_at" ps) (Fin (now w)))
                     (greater (coerce w) (assoc "refresh_token_expires_at" ps) (Fin (now w)))
                     (Some expires) (Some refresh_expires) (assoc "scope" ps)), w1)
         end
     end).
Proof.
  intros Hs Hst. unfold getAuthStatus.
  rewrite (bind_run _ _ _ _ _ (loadTokens_stored w _ Hs Hst)).
  cbn [truthy negb].
  erewrite bind_run by reflexivity.
  erewrite bind_run by reflexivity.
  erewrite bind_run by reflexivity.
  erewrite bind_run by reflexivity.
  erewrite bind_run by reflexivity.
  cbv zeta. unfold bind, lift.
  destruct (toISOString (new_Date parse (assoc "expires_at" ps))); [|reflexivity].
  destruct (toISOString (new_Date parse (assoc "refresh_token_expires_at" ps))); reflexivity.
Qed.

End StatusRuns.

(** X23: with no static token and no credential record, [getAuthStatus]
    reports not authenticated, both tokens invalid and the three other
    fields [null], and leaves the world as it was. *)
Theorem status_without_record (parse : value -> num) (w : world) :
  static_token w = false ->
  (forall v, ~ stored w v) ->
  getAuthStatus parse w = (Ret (AuthStatus false false false None None VNull), w).
Proof.
  intros Hs Hnone. unfold getAuthStatus.
  erewrite bind_run by (apply loadTokens_contract; exact Hs).
  rewrite (load_contract_absent w Hnone). reflexivity.
Qed.

Lemma status_without_record_witness :
  let w := sample_world sample_env bare_files [] in
  getAuthStatus (fun _ => NaN) w = (Ret (AuthStatus false false false None None VNull), w).
Proof.
  intros w. apply (status_without_record (fun _ => NaN) w).
  - reflexivity.
  - intros v [[m [Hf _]] _]. vm_compute in Hf. discriminate.
Defined.

(** X24: for a stored record of type [StoredTokens] with timestamps in the
    range of [Date], [getAuthStatus] reports authenticated, each validity
    as the strict comparison of the expiry with one clock reading (no 60 s
    buffer), the two expiry instants and the scope. *)
Theorem status_of_stored_record (parse : value -> num) (w : world) (t : StoredTokens) :
  static_token w = false ->
  stored w (tokens_value t) ->
  Z.abs (expires_at t) <= 8640000000000000 ->
  Z.abs (refresh_token_expires_at t) <= 8640000000000000 ->
  exists w',
    getAuthStatus parse w =
      (Ret (AuthStatus true
              (now w <? expires_at t)
              (now w <? refresh_token_expires_at t)
              (Some (Iso (expires_at t)))
              (Some (Iso (refresh_token_expires_at t)))
              (VStr (scope t))), w') /\
    quiet w w'.
Proof.
  intros Hs Hst He Hre.
  rewrite (getAuthStatus_stored parse w _ Hs Hst). cbv zeta.
  cbn [assoc String.eqb Ascii.eqb Bool.eqb new_Date time_clip].
  apply Z.leb_le in He, Hre. rewrite He, Hre. cbn [toISOString].
  eexists. split; [reflexivity|]. repeat split.
Qed.

Lemma status_of_stored_record_witness :
  let t := mkStoredTokens "A" "R" (sample_now + 30000) (sample_now - 500) "pins:read" in
  let w := sample_world sample_env (files_with (tokens_value t)) [] in
  exists w',
    getAuthStatus (fun _ => NaN) w =
      (Ret (AuthStatus true true false
              (Some (Iso (sample_now + 30000))) (Some (Iso (sample_now - 500)))
              (VStr "pins:read")), w') /\
    quiet w w'.
Proof.
  intros t w.
  apply (status_of_stored_record (fun _ => NaN) w t).
  - reflexivity.
  - split; [exists 384; split; reflexivity | reflexivity].
  - vm_compute. discriminate.
  - vm_compute. discriminate.
Defined.

(** X25: a stored record that lacks [expires_at] or
    [refresh_token_expires_at] makes [getAuthStatus] raise the [RangeError]
    of [toISOString] on an invalid date instead of returning a report. *)
Theorem status_raises_without_timestamp (parse : value -> num) (w : world) (v : value) :
  static_token w = false ->
  stored w v ->
  get_opt v "expires_at" = VUndefined \/
  get_opt v "refresh_token_expires_at" = VUndefined ->
  exists w',
    getAuthStatus parse w = (Throw (Native "RangeError"), w') /\ quiet w w'.
Proof.
  intros Hs Hst Hmiss.
  destruct (stored_object w v Hst) as [ps ->]. cbn [get_opt] in *.
  rewrite (getAuthStatus_stored parse w _ Hs Hst). cbv zeta.
  destruct Hmiss as [Hm|Hm]; rewrite Hm; cbn [new_Date time_clip toISOString].
  - eexists. split; [reflexivity|]. repeat split.
  - destruct (new_Date parse (assoc "expires_at" ps)) as [z|]; cbn [toISOString];
      eexists; (split; [reflexivity|]); repeat split.
Qed.

Lemma status_raises_without_timestamp_witness :
  let v := VObj [("access_token", VStr "A"); ("refresh_token", VStr "R");
                 ("expires_at", VNum (Fin (sample_now + 3600000)))] in
  let w := sample_world sample_env (files_with v) [] in
  exists w',
    getAuthStatus (fun _ => NaN) w = (Throw (Native "RangeError"), w') /\ quiet w w'.
Proof.
  intros v w.
  apply (status_raises_without_timestamp (fun _ => NaN) w v).
  - reflexivity.
  - split; [exists 384; split; reflexivity | reflexivity].
  - right. reflexivity.
Defined.

(** X26: with a static token, [getAuthStatus] reports on the synthesized
    record: authenticated, an expiry 24 h after the clock reading taken by
    [loadTokens], the refresh expiry at the epoch (so the refresh token is
    reported invalid as soon as the clock is not negative), and the fixed
    scope string. *)
Theorem status_with_static_token (parse : value -> num) (w : world) (tok : string) :
  env w !! "PINTEREST_ACCESS_TOKEN" = Some tok ->
  tok <> "" ->
  Z.abs (now w + 86400000) <= 8640000000000000 ->
  exists w',
    getAuthStatus parse w =
      (Ret (AuthStatus true
              (reading 1 w <? now w + 86400000)
              (reading 1 w <? 0)
              (Some (Iso (now w + 86400000)))
              (Some (Iso 0))
              (VStr "pins:read,boards:read,user_accounts:read,ads:read,catalogs:read")), w') /\
    quiet w w'.
Proof.
  intros Htok Hne Hrange.
  assert (static_token w = true) as Hs.
  { unfold static_token. rewrite Htok. cbn. apply String.eqb_neq in Hne. now rewrite Hne. }
  unfold getAuthStatus.
  rewrite (bind_run _ _ _ _ _ (loadTokens_static w Hs)).
  cbn [truthy negb record].
  erewrite bind_run by reflexivity.
  erewrite bind_run by reflexivity.
  erewrite bind_run by reflexivity.
  erewrite bind_run by reflexivity.
  erewrite bind_run by reflexivity.
  cbn [assoc String.eqb Ascii.eqb Bool.eqb new_Date time_clip].
  change (24 * 60 * 60 * 1000) with 86400000.
  apply Z.leb_le in Hrange. unfold now, reading in *. cbn [Nat.add] in *.
  rewrite Hrange. cbn.
  eexists. split; [reflexivity|]. repeat split.
Qed.

Lemma status_with_static_token_witness :
  let w := sample_world (<["PINTEREST_ACCESS_TOKEN" := "pina_static"]> sample_env)
                        bare_files [] in
  exists w',
    getAuthStatus (fun _ => NaN) w =
      (Ret (AuthStatus true true false
              (Some (Iso (sample_now + 86400000))) (Some (Iso 0))
              (VStr "pins:read,boards:read,user_accounts:read,ads:read,catalogs:read")), w') /\
    quiet w w'.
Proof.
  intros w.
  apply (status_with_static_token (fun _ => NaN) w "pina_static").
  - reflexivity.
  - discriminate.
  - vm_compute. discriminate.
Defined.

(** X27: in every world, and whether it returns or raises,
    [getAuthStatus] adds no event and leaves the files and the endpoint as
    they were. *)
Theorem status_is_quiet (parse : value -> num) (w : world) :
  quiet w (snd (getAuthStatus parse w)).
Proof.
  assert (exists v w1, loadTokens w = (Ret v, w1) /\ quiet w w1) as (v & w1 & Hload & Hq).
  { destruct (static_token w) eqn:Hs.
    - eexists _, _. split; [apply loadTokens_static; exact Hs|]. repeat split.
    - eexists _, _. split; [apply loadTokens_contract; exact Hs|]. repeat split. }
  unfold getAuthStatus. rewrite (bind_run _ _ _ _ _ Hload).
  destruct (negb (truthy v)); [exact Hq|].
  erewrite bind_run by reflexivity.
  unfold bind, lift, js_gt.
  destruct (get v "expires_at"); [|exact Hq].
  destruct (get v "refresh_token_expires_at"); [|exact Hq].
  destruct (toISOString _); [|exact Hq].
  destruct (toISOString _); [|exact Hq].
  destruct (get v "scope"); exact Hq.
Qed.
